(** * A shallow embedding of repoaudit-lite's NPD detection pipeline

    Files embedded: [src/src/parser.py] (tree walks over tree-sitter nodes),
    [src/src/analyzer.py] (source/sink matching and the oracle loop),
    [src/src/llm_client.py] (handling of the oracle reply) and the exit
    behaviour and severity ranking of [src/src/main.py]. *)

From Stdlib Require Import String List Arith Lia Bool ZArith Permutation Sorted.
Import ListNotations.
Local Open Scope string_scope.
Local Open Scope list_scope.

(** ** Syntax trees, as exposed by tree-sitter's Python binding *)

Local Set Warnings "-register-all".

(** A node has a [type] tag, its source [text], the 0-based rows of its
    [start_point] and [end_point], and its ordered [children]. *)
Inductive node : Type :=
| Node (node_type : string) (text : string) (start_row end_row : nat)
       (children : list node).

Definition node_type (n : node) : string := let '(Node t _ _ _ _) := n in t.
Definition node_text (n : node) : string := let '(Node _ x _ _ _) := n in x.
Definition node_start_row (n : node) : nat := let '(Node _ _ r _ _) := n in r.
Definition node_end_row (n : node) : nat := let '(Node _ _ _ e _) := n in e.
Definition node_children (n : node) : list node := let '(Node _ _ _ _ cs) := n in cs.

(** [node.start_point[0] + 1] *)
Definition line_of (n : node) : nat := node_start_row n + 1.

Section node_ind_nested.
Variable P : node -> Prop.
Hypothesis HNode : forall t x r e cs, Forall P cs -> P (Node t x r e cs).

Fixpoint node_ind_nested (n : node) : P n :=
  match n with
  | Node t x r e cs =>
      HNode t x r e cs
        ((fix go (l : list node) : Forall P l :=
            match l with
            | [] => Forall_nil P
            | c :: l' => Forall_cons c (node_ind_nested c) (go l')
            end) cs)
  end.
End node_ind_nested.

(** [m] occurs in the subtree rooted at [n] (including [n] itself). *)
Inductive in_tree (m : node) : node -> Prop :=
| in_tree_here : in_tree m m
| in_tree_child t x r e cs c :
    In c cs -> in_tree m c -> in_tree m (Node t x r e cs).

(** ** Events: the dicts [{'variable': ..., 'line': ...}] *)

Record event : Type := Event { variable : string; line : nat }.

Definition event_eqb (a b : event) : bool :=
  String.eqb (variable a) (variable b) && Nat.eqb (line a) (line b).

Lemma event_eqb_spec a b : event_eqb a b = true <-> a = b.
Proof.
  destruct a as [va la], b as [vb lb]; unfold event_eqb; simpl.
  rewrite andb_true_iff, String.eqb_eq, Nat.eqb_eq.
  split; [intros [-> ->]; reflexivity | intros H; inversion H; auto].
Qed.

Definition event_eq_dec (a b : event) : {a = b} + {a <> b}.
Proof. decide equality; [apply Nat.eq_dec | apply string_dec]. Defined.

(** ** [CodeParser.find_attribute_access] *)

(** The inner [for child in node.children: if child.type == "identifier":
    ... break] loop: the first identifier child. *)
Fixpoint first_identifier (cs : list node) : option node :=
  match cs with
  | [] => None
  | c :: cs' =>
      if String.eqb (node_type c) "identifier" then Some c
      else first_identifier cs'
  end.

(** The key [(var_name, line)] an [attribute] node contributes, if any. *)
Definition attribute_base (n : node) : option event :=
  if String.eqb (node_type n) "attribute" then
    match first_identifier (node_children n) with
    | Some c => Some (Event (node_text c) (line_of c))
    | None => None
    end
  else None.

(** [if key not in seen: seen.add(key); results.append(...)]; the state is
    the pair [(seen, results)]. *)
Definition record_sink (k : event) (st : list event * list event)
  : list event * list event :=
  let '(seen, results) := st in
  if existsb (event_eqb k) seen then (seen, results)
  else (k :: seen, results ++ [k]).

(** The nested [visit]: handle the node, then visit every child in order. *)
Fixpoint visit_attr (n : node) (st : list event * list event)
  : list event * list event :=
  let st1 := match attribute_base n with
             | Some k => record_sink k st
             | None => st
             end in
  (fix go (cs : list node) (st : list event * list event) :=
     match cs with
     | [] => st
     | c :: cs' => go cs' (visit_attr c st)
     end) (node_children n) st1.

Definition find_attribute_access (func_node : node) : list event :=
  snd (visit_attr func_node ([], [])).

(** ** [CodeParser.find_null_assignments] *)

(** The loop over the children of an [assignment] node: [has_none] is set by
    any child of type [none], [var_node] is the last identifier child. *)
Definition scan_assignment (cs : list node) : bool * option node :=
  fold_left (fun acc c =>
               let '(has_none, var_node) := acc in
               if String.eqb (node_type c) "none" then (true, var_node)
               else if String.eqb (node_type c) "identifier" then (has_none, Some c)
               else (has_none, var_node))
            cs (false, None).

Definition null_assignment_at (n : node) : option event :=
  if String.eqb (node_type n) "assignment" then
    match scan_assignment (node_children n) with
    | (true, Some v) => Some (Event (node_text v) (line_of v))
    | _ => None
    end
  else None.

(** Appending to the shared [results] in a pre-order walk. *)
Fixpoint find_null_assignments (n : node) : list event :=
  match null_assignment_at n with Some e => [e] | None => [] end ++
  (fix go (cs : list node) :=
     match cs with
     | [] => []
     | c :: cs' => find_null_assignments c ++ go cs'
     end) (node_children n).

(** ** [CodeParser.extract_functions] *)

(** [source_code.split('\n')] *)
Fixpoint split_nl_from (s : string) (cur : string) : list string :=
  match s with
  | EmptyString => [cur]
  | String c s' =>
      if Ascii.eqb c (Ascii.ascii_of_nat 10) then cur :: split_nl_from s' ""
      else split_nl_from s' (cur ++ String c "")
  end.

Definition split_lines (s : string) : list string := split_nl_from s "".

(** ['\n'.join(lines[start:end+1])] *)
Definition slice_code (lines : list string) (start end_ : nat) : string :=
  String.concat (String (Ascii.ascii_of_nat 10) "")
                (firstn (end_ + 1 - start) (skipn start lines)).

Record func_unit : Type := FuncUnit {
  name : string;
  start_line : nat;
  end_line : nat;
  code : string;
  fnode : node
}.

(** A [function_definition] node yields a unit named by its first
    identifier child; without one it yields nothing. *)
Definition unit_of (lines : list string) (n : node) : option func_unit :=
  if String.eqb (node_type n) "function_definition" then
    match first_identifier (node_children n) with
    | Some c =>
        Some (FuncUnit (node_text c) (node_start_row n + 1) (node_end_row n + 1)
                       (slice_code lines (node_start_row n) (node_end_row n)) n)
    | None => None
    end
  else None.

Fixpoint visit_funcs (lines : list string) (n : node) : list func_unit :=
  match unit_of lines n with Some u => [u] | None => [] end ++
  (fix go (cs : list node) :=
     match cs with
     | [] => []
     | c :: cs' => visit_funcs lines c ++ go cs'
     end) (node_children n).

(** [tree] stands for [tree.root_node]. *)
Definition extract_functions (root : node) (source_code : string) : list func_unit :=
  visit_funcs (split_lines source_code) root.

(** ** Python values produced by [json.loads] *)

(** JSON numbers are kept to integers; floats play no part here. *)
Inductive pyobj : Type :=
| PNone
| PBool (b : bool)
| PInt (z : Z)
| PStr (s : string)
| PList (l : list pyobj)
| PDict (d : list (string * pyobj)).

(** Python truthiness, as used by [if llm_result.get('is_bug'):]. *)
Definition truthy (o : pyobj) : bool :=
  match o with
  | PNone => false
  | PBool b => b
  | PInt z => negb (Z.eqb z 0)
  | PStr s => negb (String.eqb s "")
  | PList l => negb (Nat.eqb (length l) 0)
  | PDict d => negb (Nat.eqb (length d) 0)
  end.

Fixpoint dict_get (d : list (string * pyobj)) (k : string) : option pyobj :=
  match d with
  | [] => None
  | (k', v) :: d' => if String.eqb k k' then Some v else dict_get d' k
  end.

(** [d[k] = v]: overwrite in place, or insert at the end. *)
Fixpoint dict_set (d : list (string * pyobj)) (k : string) (v : pyobj)
  : list (string * pyobj) :=
  match d with
  | [] => [(k, v)]
  | (k', v') :: d' =>
      if String.eqb k k' then (k', v) :: d' else (k', v') :: dict_set d' k v
  end.

(** Exceptions that matter here. [KeyboardInterrupt] is not an
    [Exception] subclass; every other one is. *)
Inductive exn : Type :=
| JSONDecodeError
| TypeError
| AttributeError
| UnboundLocalError
| KeyboardInterrupt
| OtherError (msg : string).

Definition is_Exception (e : exn) : bool :=
  match e with KeyboardInterrupt => false | _ => true end.

Definition bind {A B} (m : exn + A) (f : A -> exn + B) : exn + B :=
  match m with inl e => inl e | inr a => f a end.
Notation "x <- m ;; f" := (bind m (fun x => f))
  (at level 61, m at next level, right associativity).

Fixpoint is_prefix (p s : string) : bool :=
  match p, s with
  | EmptyString, _ => true
  | String a p', String b s' => Ascii.eqb a b && is_prefix p' s'
  | String _ _, EmptyString => false
  end.

(** [p in s] for strings: substring test. *)
Fixpoint is_substring (p s : string) : bool :=
  is_prefix p s ||
  match s with EmptyString => false | String _ s' => is_substring p s' end.

(** [field in obj] *)
Definition py_contains (obj : pyobj) (field : string) : exn + bool :=
  match obj with
  | PDict d => inr (match dict_get d field with Some _ => true | None => false end)
  | PList l => inr (existsb (fun x => match x with PStr s => String.eqb s field
                                              | _ => false end) l)
  | PStr s => inr (is_substring field s)
  | _ => inl TypeError
  end.

(** [obj[field] = v] with a string index *)
Definition py_setitem (obj : pyobj) (field : string) (v : pyobj) : exn + pyobj :=
  match obj with
  | PDict d => inr (PDict (dict_set d field v))
  | _ => inl TypeError
  end.

(** [obj.get(key, default)]: only dicts have [get]. *)
Definition py_get (obj : pyobj) (key : string) (default : pyobj) : exn + pyobj :=
  match obj with
  | PDict d => inr (match dict_get d key with Some v => v | None => default end)
  | _ => inl AttributeError
  end.

(** ** [LLMClient.analyze_npd_path] *)

(** What the external call gives back. [CallRaised e]: [Generation.call], or
    reading [response.output.choices[0].message.content], raised [e].
    [Response code parsed]: the status code and, for the cleaned message
    text, [json.loads]'s result ([None] when it raises [JSONDecodeError]). *)
Inductive api_response : Type :=
| CallRaised (e : exn)
| Response (status_code : Z) (parsed : option pyobj).

Definition required_fields : list string :=
  ["has_dangerous_path"; "is_bug"; "severity"].

(** [False if field != 'severity' else 'Low'] *)
Definition field_default (field : string) : pyobj :=
  if String.eqb field "severity" then PStr "Low" else PBool false.

(** [for field in required_fields: if field not in result: result[field] = ...] *)
Fixpoint fill_required (result : pyobj) (fields : list string) : exn + pyobj :=
  match fields with
  | [] => inr result
  | f :: fs =>
      present <- py_contains result f ;;
      result' <- (if present then inr result
                  else py_setitem result f (field_default f)) ;;
      fill_required result' fs
  end.

(** The fallback dict of the three handlers; [err] is its ["error"] text. *)
Definition default_verdict (err : string) : pyobj :=
  PDict [("has_dangerous_path", PBool false); ("is_bug", PBool false);
         ("severity", PStr "Low"); ("error", PStr err)].

Definition exn_message (e : exn) : string :=
  match e with
  | OtherError m => m
  | _ => "exception"
  end.

(** The [try] body: [inl] is the exception it raises. *)
Definition npd_try_body (resp : api_response) : exn + pyobj :=
  match resp with
  | CallRaised e => inl e
  | Response code parsed =>
      if Z.eqb code 200 then
        match parsed with
        | None => inl JSONDecodeError
        | Some result => fill_required result required_fields
        end
      else inr (default_verdict "API status error")
  end.

(** The handlers. The [JSONDecodeError] handler prints [response_text],
    which is unbound when the exception came from the call itself. *)
Definition analyze_npd_path (resp : api_response) : exn + pyobj :=
  match npd_try_body resp with
  | inr v => inr v
  | inl JSONDecodeError =>
      match resp with
      | CallRaised _ => inl UnboundLocalError
      | Response _ _ => inr (default_verdict "JSON decode error")
      end
  | inl e => if is_Exception e then inr (default_verdict (exn_message e)) else inl e
  end.

(** ** [NPDAnalyzer._analyze_function] and [NPDAnalyzer.analyze_file] *)

(** Step 3: the nested loops over [null_assigns] and [attr_accesses]. *)
Definition match_events (null_assigns attr_accesses : list event)
  : list (event * event) :=
  flat_map (fun na =>
    flat_map (fun aa =>
      if String.eqb (variable na) (variable aa) && Nat.ltb (line na) (line aa)
      then [(na, aa)] else []) attr_accesses) null_assigns.

(** The arguments of one [self.llm.analyze_npd_path] call. *)
Record request : Type := Request {
  req_code : string; req_var : string; req_null_line : nat; req_use_line : nat
}.

(** The [bug] dict built when the verdict says [is_bug]. *)
Record bug : Type := Bug {
  bug_file : string; bug_function : string; bug_variable : string;
  bug_null_line : nat; bug_use_line : nat;
  bug_severity : pyobj; bug_description : pyobj;
  bug_trigger_condition : pyobj; bug_reason : pyobj; bug_code_snippet : string
}.

Definition request_of (func : func_unit) (na aa : event) : request :=
  Request (code func) (variable na) (line na) (line aa).

(** The analyzer's default [trigger_condition], the character U+65E0
    ("none" in Chinese), as its UTF-8 bytes E6 97 A0. *)
Definition no_trigger : string :=
  String (Ascii.ascii_of_nat 230)
    (String (Ascii.ascii_of_nat 151) (String (Ascii.ascii_of_nat 160) EmptyString)).

(** Step 5 for one candidate, given the oracle's [api_response]:
    [inr (Some b)] records [b], [inr None] records nothing. *)
Definition candidate_outcome (resp : api_response) (func : func_unit)
    (file : string) (na aa : event) : exn + option bug :=
  llm_result <- analyze_npd_path resp ;;
  is_bug <- py_get llm_result "is_bug" PNone ;;
  if truthy is_bug then
    sev <- py_get llm_result "severity" (PStr "Medium") ;;
    desc <- py_get llm_result "path_description" (PStr "") ;;
    trig <- py_get llm_result "trigger_condition" (PStr no_trigger) ;;
    rsn <- py_get llm_result "reason" (PStr "") ;;
    inr (Some (Bug file (name func) (variable na) (line na) (line aa)
                   sev desc trig rsn (code func)))
  else inr None.

Section Oracle.
(** The external service: its reply to the [i]-th call of the run. *)
Variable ask : nat -> request -> api_response.

(** Step 4: the oracle loop. [calls] is the list of requests sent so far
    in the run; an exception escapes with the requests sent up to it. *)
Fixpoint check_matches (func : func_unit) (file : string)
    (ms : list (event * event)) (calls : list request) (bugs : list bug)
  : list request * (exn + list bug) :=
  match ms with
  | [] => (calls, inr bugs)
  | (na, aa) :: ms' =>
      let req := request_of func na aa in
      match candidate_outcome (ask (length calls) req) func file na aa with
      | inl e => (calls ++ [req], inl e)
      | inr (Some b) => check_matches func file ms' (calls ++ [req]) (bugs ++ [b])
      | inr None => check_matches func file ms' (calls ++ [req]) bugs
      end
  end.

Definition analyze_function (func : func_unit) (file : string)
    (calls : list request) : list request * (exn + list bug) :=
  let null_assigns := find_null_assignments (fnode func) in
  match null_assigns with
  | [] => (calls, inr [])
  | _ =>
      let attr_accesses := find_attribute_access (fnode func) in
      match attr_accesses with
      | [] => (calls, inr [])
      | _ =>
          match match_events null_assigns attr_accesses with
          | [] => (calls, inr [])
          | ms => check_matches func file ms calls []
          end
      end
  end.

Fixpoint analyze_units (units : list func_unit) (file : string)
    (calls : list request) (file_bugs : list bug)
  : list request * (exn + list bug) :=
  match units with
  | [] => (calls, inr file_bugs)
  | u :: us =>
      match analyze_function u file calls with
      | (calls', inl e) => (calls', inl e)
      | (calls', inr bs) => analyze_units us file calls' (file_bugs ++ bs)
      end
  end.

(** [parsed] is [parse_file]'s result: [None] when reading, parsing or
    decoding raised, which [analyze_file] catches and answers with []. *)
Definition analyze_file (parsed : option (node * string)) (file : string)
    (calls : list request) : list request * (exn + list bug) :=
  match parsed with
  | None => (calls, inr [])
  | Some (root, source_code) =>
      analyze_units (extract_functions root source_code) file calls []
  end.
End Oracle.

(** ** [main]: severity ranking and exit status *)

(** [severity_order.get(b['severity'], 4)]; severities are the strings the
    oracle puts in the verdict. *)
Definition severity_rank (sev : string) : nat :=
  if String.eqb sev "Critical" then 0
  else if String.eqb sev "High" then 1
  else if String.eqb sev "Medium" then 2
  else if String.eqb sev "Low" then 3
  else 4.

Section StableSort.
Context {A : Type} (key : A -> nat).

(** Insert [x], which came first, before every element whose key is not
    smaller than its own. *)
Fixpoint insert_by_key (x : A) (l : list A) : list A :=
  match l with
  | [] => [x]
  | y :: l' => if Nat.leb (key x) (key y) then x :: y :: l'
               else y :: insert_by_key x l'
  end.

(** Python's [sorted(l, key=key)]: a stable sort, realised as insertion
    sort (every stable sort by the same key gives the same list). *)
Fixpoint sorted_by_key (l : list A) : list A :=
  match l with
  | [] => []
  | x :: l' => insert_by_key x (sorted_by_key l')
  end.
End StableSort.

(** [bug['severity']] for each finding. [generate_html_report] runs before
    the ranking and calls [.lower()] on every severity, so any non-string
    severity has already raised [AttributeError] when the ranking is reached. *)
Fixpoint report_severities (bugs : list bug) : exn + list string :=
  match bugs with
  | [] => inr []
  | b :: bs =>
      s <- (match bug_severity b with PStr s => inr s | _ => inl AttributeError end) ;;
      ss <- report_severities bs ;;
      inr (s :: ss)
  end.

(** [sorted(bugs, key=lambda b: severity_order.get(b['severity'], 4))], each
    finding paired with its (string) severity. *)
Definition rank_findings (ranked : list (string * bug)) : list (string * bug) :=
  sorted_by_key (fun p => severity_rank (fst p)) ranked.

(** [main]'s exit status: [sys.exit(c)] exits with [c], a normal end with 0,
    an uncaught [Exception] with 1 and an uncaught [KeyboardInterrupt] with
    130 (the shell's code for SIGINT). *)
Definition uncaught_status (e : exn) : nat :=
  match e with KeyboardInterrupt => 130 | _ => 1 end.

Definition default_target : string := "../benchmark/test_npd.py".

(** [env_ok]: [check_environment()]; [argv1]: [sys.argv[1]] if given;
    [path_exists]: [os.path.exists]; [analysis]: how the [try] block around
    the analysis ends (the collected [bugs] or the exception it raises);
    [reporting]: how the report and summary phase ends when it runs. *)
Definition main (env_ok : bool) (argv1 : option string)
    (path_exists : string -> bool) (analysis : exn + list bug)
    (reporting : list bug -> exn + unit) : nat :=
  if negb env_ok then 1 else
  let target := match argv1 with Some t => t | None => default_target end in
  if match argv1 with None => negb (path_exists default_target) | Some _ => false end
  then 1 else
  if negb (path_exists target) then 1 else
  match analysis with
  | inl KeyboardInterrupt => 0
  | inl _ => 1
  | inr bugs =>
      match bugs with
      | [] => 0
      | _ => match reporting bugs with
             | inl e => uncaught_status e
             | inr _ => 0
             end
      end
  end.

(** ** The reply-text cleanup of [LLMClient.analyze_npd_path] *)









(** ** [ReportGenerator._generate_summary] *)








(** ** [ReportGenerator._escape_html] *)

(** [s.replace(old, new)] for a one-character [old]. *)
Fixpoint replace_char (old : Ascii.ascii) (new : string) (s : string) : string :=
  match s with
  | EmptyString => EmptyString
  | String c s' =>
      (if Ascii.eqb c old then new else String c EmptyString) ++
      replace_char old new s'
  end.

(** Ampersand, less-than, greater-than, double quote and single quote
    (codes 38, 60, 62, 34, 39). *)
Definition amp_c : Ascii.ascii := Ascii.ascii_of_nat 38.
Definition lt_c : Ascii.ascii := Ascii.ascii_of_nat 60.
Definition gt_c : Ascii.ascii := Ascii.ascii_of_nat 62.
Definition quot_c : Ascii.ascii := Ascii.ascii_of_nat 34.
Definition apos_c : Ascii.ascii := Ascii.ascii_of_nat 39.

Definition escape_html (text : string) : string :=
  replace_char apos_c "&#39;"
    (replace_char quot_c "&quot;"
      (replace_char gt_c "&gt;"
        (replace_char lt_c "&lt;"
          (replace_char amp_c "&amp;" text)))).

(** ** The directory loop of [main] *)

Section DirectoryRun.
Variable ask : nat -> request -> api_response.

(** [for py_file in py_files: bugs.extend(analyzer.analyze_file(...))]; each
    file comes with its path and the result of parsing it. *)
Fixpoint analyze_files (files : list (string * option (node * string)))
    (calls : list request) (bugs : list bug)
  : list request * (exn + list bug) :=
  match files with
  | [] => (calls, inr bugs)
  | (path, parsed) :: fs =>
      match analyze_file ask parsed path calls with
      | (calls', inl e) => (calls', inl e)
      | (calls', inr bs) => analyze_files fs calls' (bugs ++ bs)
      end
  end.
End DirectoryRun.

(** * Properties *)

(** ** The sink walk as a fold over the attribute keys of the subtree *)

(** Keys of every [attribute] node of the subtree, in pre-order, with
    repetitions. *)
Fixpoint attr_hits (n : node) : list event :=
  match attribute_base n with Some k => [k] | None => [] end ++
  (fix go (cs : list node) :=
     match cs with
     | [] => []
     | c :: cs' => attr_hits c ++ go cs'
     end) (node_children n).

Definition sink_step (st : list event * list event) (k : event) :=
  record_sink k st.

Lemma visit_attr_fold : forall n st,
  visit_attr n st = fold_left sink_step (attr_hits n) st.
Proof.
  induction n as [t x r e cs Hcs] using node_ind_nested; intros st.
  simpl. rewrite fold_left_app.
  set (st1 := fold_left sink_step
                (match attribute_base (Node t x r e cs) with
                 | Some k => [k] | None => [] end) st).
  assert (Hst1 : match attribute_base (Node t x r e cs) with
                 | Some k => record_sink k st | None => st end = st1).
  { subst st1. destruct (attribute_base (Node t x r e cs)); reflexivity. }
  rewrite Hst1. clearbody st1. clear Hst1 st.
  revert st1. induction Hcs as [|c cs' Hc Hcs' IH]; intros st1; simpl.
  - reflexivity.
  - rewrite fold_left_app, Hc. apply IH.
Qed.

Lemma attr_hits_in_tree : forall n k,
  In k (attr_hits n) <-> exists m, in_tree m n /\ attribute_base m = Some k.
Proof.
  induction n as [t x r e cs Hcs] using node_ind_nested; intros k.
  simpl. rewrite in_app_iff.
  assert (Hgo : In k ((fix go (cs : list node) :=
                        match cs with
                        | [] => [] | c :: cs' => attr_hits c ++ go cs'
                        end) cs)
                <-> exists c m, In c cs /\ in_tree m c /\ attribute_base m = Some k).
  { clear t x r e. induction Hcs as [|c cs' Hc Hcs' IH].
    - simpl. split; [tauto | intros (c & m & [] & _)].
    - simpl. rewrite in_app_iff, Hc, IH. split.
      + intros [(m & Hm & Hb) | (c' & m & Hin & Hm & Hb)].
        * exists c, m; auto.
        * exists c', m; auto.
      + intros (c' & m & [-> | Hin] & Hm & Hb).
        * left; eauto.
        * right; eauto. }
  rewrite Hgo. split.
  - intros [Hh | (c & m & Hin & Hm & Hb)].
    + exists (Node t x r e cs); split; [constructor |].
      destruct (attribute_base (Node t x r e cs)) as [k'|]; simpl in Hh;
        [destruct Hh as [<- | []]; reflexivity | contradiction].
    + exists m; split; [econstructor; eauto | exact Hb].
  - intros (m & Hm & Hb). inversion Hm; subst.
    + left. rewrite Hb. left. reflexivity.
    + right. eauto.
Qed.

(** [seen] holds the same keys as [results], which has no repetition. *)
Definition sink_inv (st : list event * list event) : Prop :=
  NoDup (snd st) /\ forall k, In k (fst st) <-> In k (snd st).

Lemma existsb_event_eqb k l : existsb (event_eqb k) l = true <-> In k l.
Proof.
  rewrite existsb_exists. split.
  - intros (k' & Hin & Heq). apply event_eqb_spec in Heq. subst. exact Hin.
  - intros Hin. exists k. split; [exact Hin | apply event_eqb_spec; reflexivity].
Qed.

Lemma record_sink_spec k st :
  sink_inv st ->
  sink_inv (record_sink k st) /\
  (forall k', In k' (snd (record_sink k st)) <-> k' = k \/ In k' (snd st)).
Proof.
  destruct st as [seen results]; intros [Hnd Hsame]; simpl in *.
  destruct (existsb (event_eqb k) seen) eqn:Hex.
  - apply existsb_event_eqb, Hsame in Hex.
    split; [split; assumption |].
    intros k'; simpl. split; [auto | intros [-> | H]; auto].
  - assert (Hnot : ~ In k results).
    { intros H. apply Hsame, existsb_event_eqb in H. congruence. }
    split; [split |]; simpl.
    + apply NoDup_app; [exact Hnd | constructor; [intros [] | constructor] |].
      intros y Hy [<- | []]. contradiction.
    + intros k'. simpl. rewrite in_app_iff, Hsame. simpl.
      split; intros H; intuition congruence.
    + intros k'. rewrite in_app_iff. simpl.
      split; intros H; intuition congruence.
Qed.

Lemma sink_fold_spec : forall hits st,
  sink_inv st ->
  sink_inv (fold_left sink_step hits st) /\
  (forall k, In k (snd (fold_left sink_step hits st)) <-> In k hits \/ In k (snd st)).
Proof.
  induction hits as [|h hits IH]; intros st Hinv; simpl.
  - split; [exact Hinv | tauto].
  - change (fold_left sink_step hits (sink_step st h))
      with (fold_left sink_step hits (record_sink h st)).
    destruct (record_sink_spec h st Hinv) as [Hinv' Hin'].
    destruct (IH _ Hinv') as [Hinv'' Hin''].
    split; [exact Hinv'' |].
    intros k. rewrite Hin'', Hin'. split; intros H; intuition congruence.
Qed.

Lemma find_attribute_access_spec n :
  NoDup (find_attribute_access n) /\
  (forall k, In k (find_attribute_access n) <->
             exists m, in_tree m n /\ attribute_base m = Some k).
Proof.
  unfold find_attribute_access. rewrite visit_attr_fold.
  assert (H0 : sink_inv ([], [])) by (split; [constructor | simpl; tauto]).
  destruct (sink_fold_spec (attr_hits n) _ H0) as [[Hnd _] Hin].
  split; [exact Hnd |].
  intros k. rewrite Hin, attr_hits_in_tree. simpl. tauto.
Qed.

(** Small trees, as tree-sitter builds them (rows are 0-based). *)
Definition ident (s : string) (row : nat) : node := Node "identifier" s row row [].
Definition tok (s : string) (row : nat) : node := Node s s row row [].

(** [x.a + x.b] on row 0. *)
Definition ex_two_accesses : node :=
  Node "binary_operator" "x.a + x.b" 0 0
    [Node "attribute" "x.a" 0 0 [ident "x" 0; tok "." 0; ident "a" 0];
     tok "+" 0;
     Node "attribute" "x.b" 0 0 [ident "x" 0; tok "." 0; ident "b" 0]].

Example ex_two_accesses_one_event :
  find_attribute_access ex_two_accesses = [Event "x" 1].
Proof. reflexivity. Qed.

(** [a.b.c] on row 0: the outer [attribute] node has the inner one as its
    first child. *)
Definition ex_abc : node :=
  Node "attribute" "a.b.c" 0 0
    [Node "attribute" "a.b" 0 0 [ident "a" 0; tok "." 0; ident "b" 0];
     tok "." 0; ident "c" 0].

(** ** C5 *)

(** C5: the sink list of a unit holds each [(variable, line)] key at most
    once, and exactly once when some member-access node of the unit's
    subtree has that key; two accesses to one variable on one line give one
    event. *)
Theorem find_attribute_access_one_event_per_key : forall n k,
  count_occ event_eq_dec (find_attribute_access n) k <= 1 /\
  (count_occ event_eq_dec (find_attribute_access n) k = 1 <->
   exists m, in_tree m n /\ attribute_base m = Some k).
Proof.
  intros n k. destruct (find_attribute_access_spec n) as [Hnd Hin].
  pose proof (proj1 (NoDup_count_occ event_eq_dec _) Hnd k) as Hle.
  split; [exact Hle |].
  rewrite <- Hin, (count_occ_In event_eq_dec). lia.
Qed.

(** ** C4 *)

(** C4, a code bug: [find_attribute_access] is meant to take the
    object part of an access as the sink variable, but it takes the first
    identifier child. In [a.b.c] the outer access has the object [a.b] (not
    an identifier), so its first identifier child is the member name [c],
    which is reported; the walk then goes into the children, where the
    nested access [a.b] reports [a]. *)
Lemma attribute_nested_access_reported :
  attribute_base ex_abc = Some (Event "c" 1) /\
  find_attribute_access ex_abc = [Event "c" 1; Event "a" 1].
Proof. split; reflexivity. Qed.

(** ** C6 *)

(** Node types tree-sitter-python allows as an assignment target. *)
Definition lhs_types : list string :=
  ["identifier"; "attribute"; "subscript"; "pattern_list"; "tuple_pattern";
   "list_pattern"; "list_splat_pattern"].

(** The children of an [assignment] node: [left = right] or
    [left : type = right]. *)
Inductive assignment_shape : list node -> node -> node -> Prop :=
| shape_plain l eq r :
    In (node_type l) lhs_types -> node_type eq = "=" ->
    assignment_shape [l; eq; r] l r
| shape_annotated l colon ty eq r :
    In (node_type l) lhs_types -> node_type colon = ":" ->
    node_type ty = "type" -> node_type eq = "=" ->
    assignment_shape [l; colon; ty; eq; r] l r.

Lemma lhs_type_not_none t : In t lhs_types -> String.eqb t "none" = false.
Proof.
  intros H. simpl in H.
  repeat (destruct H as [<- | H]; [reflexivity |]). destruct H.
Qed.

Lemma scan_assignment_shape cs lhs rhs :
  assignment_shape cs lhs rhs ->
  scan_assignment cs =
  (String.eqb (node_type rhs) "none",
   if String.eqb (node_type rhs) "identifier" then Some rhs
   else if String.eqb (node_type lhs) "identifier" then Some lhs else None).
Proof.
  intros Hs. destruct Hs as [l eq r Hl Heq | l colon ty eq r Hl Hc Hty Heq];
    unfold scan_assignment; simpl;
    rewrite (lhs_type_not_none _ Hl);
    repeat match goal with H : node_type ?n = _ |- _ => rewrite H; clear H end;
    simpl;
    destruct (String.eqb (node_type l) "identifier");
    destruct (String.eqb_spec (node_type r) "none") as [Hr | Hr];
    try (rewrite Hr; reflexivity);
    destruct (String.eqb (node_type r) "identifier"); reflexivity.
Qed.

(** C6: an [assignment] node of either shape yields a source event exactly
    when its right-hand side is the literal [None] and its target is a plain
    identifier, and the event is that identifier with its line; a node of
    any other type ([augmented_assignment] included) yields none. *)
Theorem null_assignment_detection :
  (forall n, node_type n <> "assignment" -> null_assignment_at n = None) /\
  (forall x r e cs lhs rhs ev,
     assignment_shape cs lhs rhs ->
     (null_assignment_at (Node "assignment" x r e cs) = Some ev <->
      node_type rhs = "none" /\ node_type lhs = "identifier" /\
      ev = Event (node_text lhs) (line_of lhs))).
Proof.
  split.
  - intros n Hn. unfold null_assignment_at.
    destruct (String.eqb_spec (node_type n) "assignment"); [contradiction | reflexivity].
  - intros x r e cs lhs rhs ev Hs.
    unfold null_assignment_at. simpl.
    rewrite (scan_assignment_shape _ _ _ Hs).
    destruct (String.eqb_spec (node_type rhs) "none") as [Hr | Hr].
    + rewrite Hr. simpl.
      destruct (String.eqb_spec (node_type lhs) "identifier") as [Hl | Hl].
      * split; [intros H; inversion H; auto | intros (_ & _ & ->); reflexivity].
      * split; [discriminate | intros (_ & H & _); contradiction].
    + split; [discriminate | intros (H & _); contradiction].
Qed.

(** ** C1 *)

Definition pairs_with (na aa : event) : bool :=
  String.eqb (variable na) (variable aa) && Nat.ltb (line na) (line aa).

Lemma match_events_filter_prod : forall srcs sinks,
  match_events srcs sinks =
  filter (fun p => pairs_with (fst p) (snd p)) (list_prod srcs sinks).
Proof.
  induction srcs as [|na srcs IH]; intros sinks; simpl; [reflexivity |].
  rewrite filter_app, <- IH. f_equal.
  induction sinks as [|aa sinks IHs]; simpl; [reflexivity |].
  rewrite IHs. unfold pairs_with. simpl.
  destruct (String.eqb (variable na) (variable aa) && Nat.ltb (line na) (line aa));
    reflexivity.
Qed.

(** C1: the candidates are the (source, sink) pairs of the cross product,
    in loop order, that share the variable and have the source line
    strictly before the sink line; so each emitted pair has
    [sourceLine < sinkLine], and [m] sources and [n] sinks of one variable
    with every source line before every sink line give [m * n] candidates. *)
Theorem match_events_cross_product :
  (forall srcs sinks,
     match_events srcs sinks =
     filter (fun p => String.eqb (variable (fst p)) (variable (snd p)) &&
                      Nat.ltb (line (fst p)) (line (snd p)))
            (list_prod srcs sinks)) /\
  (forall srcs sinks na aa,
     In (na, aa) (match_events srcs sinks) ->
     In na srcs /\ In aa sinks /\ variable na = variable aa /\ line na < line aa) /\
  (forall v srcs sinks,
     Forall (fun s => variable s = v) srcs ->
     Forall (fun k => variable k = v) sinks ->
     (forall s k, In s srcs -> In k sinks -> line s < line k) ->
     length (match_events srcs sinks) = length srcs * length sinks).
Proof.
  split; [exact match_events_filter_prod |]. split.
  - intros srcs sinks na aa H.
    rewrite match_events_filter_prod, filter_In, in_prod_iff in H.
    destruct H as [[Hs Hk] Hp]. simpl in Hp.
    apply andb_true_iff in Hp as [Hv Hl].
    apply String.eqb_eq in Hv. apply Nat.ltb_lt in Hl. auto.
  - intros v srcs sinks Hs Hk Hl.
    rewrite match_events_filter_prod, <- length_prod.
    rewrite forallb_filter_id; [reflexivity |].
    apply forallb_forall. intros [na aa] Hin. apply in_prod_iff in Hin as [Hna Haa]. simpl.
    unfold pairs_with. rewrite Forall_forall in Hs, Hk.
    rewrite (Hs _ Hna), (Hk _ Haa), String.eqb_refl.
    apply Nat.ltb_lt, Hl; assumption.
Qed.

(** ** C7 *)

(** C7: no source event gives no candidate whatever the sinks; a source
    after its only sink gives none either; and a unit with no candidate
    makes no oracle call and records no finding. *)
Theorem no_candidates_no_oracle_calls :
  (forall sinks, match_events [] sinks = []) /\
  (forall v v' s k, k < s -> match_events [Event v s] [Event v' k] = []) /\
  (forall ask func file calls,
     match_events (find_null_assignments (fnode func))
                  (find_attribute_access (fnode func)) = [] ->
     analyze_function ask func file calls = (calls, inr [])).
Proof.
  split; [reflexivity |]. split.
  - intros v v' s k Hks. simpl.
    replace (Nat.ltb s k) with false by (symmetry; apply Nat.ltb_ge; lia).
    rewrite andb_false_r. reflexivity.
  - intros ask func file calls H. unfold analyze_function.
    destruct (find_null_assignments (fnode func)) as [|na nas]; [reflexivity |].
    destruct (find_attribute_access (fnode func)) as [|aa aas]; [reflexivity |].
    rewrite H. reflexivity.
Qed.

(** Scenario C: [x.y] on row 1, [x = None] on row 2 of [f]. *)
Definition ex_scenario_c : node :=
  Node "function_definition" "def f(x): ..." 0 2
    [tok "def" 0; ident "f" 0; Node "parameters" "(x)" 0 0 [ident "x" 0];
     tok ":" 0;
     Node "block" "" 1 2
       [Node "expression_statement" "print(x.y)" 1 1
          [Node "call" "print(x.y)" 1 1
             [ident "print" 1;
              Node "argument_list" "(x.y)" 1 1
                [Node "attribute" "x.y" 1 1 [ident "x" 1; tok "." 1; ident "y" 1]]]];
        Node "expression_statement" "x = None" 2 2
          [Node "assignment" "x = None" 2 2
             [ident "x" 2; tok "=" 2; Node "none" "None" 2 2 []]]]].

Definition ex_unit (n : node) : func_unit :=
  FuncUnit "f" (node_start_row n + 1) (node_end_row n + 1) "def f" n.

Example scenario_c_events :
  find_null_assignments ex_scenario_c = [Event "x" 3] /\
  find_attribute_access ex_scenario_c = [Event "x" 2] /\
  forall ask calls,
    analyze_function ask (ex_unit ex_scenario_c) "t.py" calls = (calls, inr []).
Proof. split; [reflexivity | split; [reflexivity | intros; reflexivity]]. Qed.

(** ** C3 *)

(** C3, a code bug: [_analyze_function] is meant to record a
    finding only when the oracle judged the path a bug (the comment above
    [if llm_result.get('is_bug')]), but the test is Python truthiness, so a
    reply whose [is_bug] is the string ["false"] yields a finding. *)
Definition reply_is_bug_string : api_response :=
  Response 200 (Some (PDict [("has_dangerous_path", PBool false);
                             ("is_bug", PStr "false");
                             ("severity", PStr "Low")])).

Lemma finding_from_string_is_bug :
  (exists b, candidate_outcome reply_is_bug_string (ex_unit ex_scenario_c) "t.py"
               (Event "x" 2) (Event "x" 3) = inr (Some b)) /\
  analyze_npd_path reply_is_bug_string =
    inr (PDict [("has_dangerous_path", PBool false); ("is_bug", PStr "false");
                ("severity", PStr "Low")]).
Proof. split; [eexists; reflexivity | reflexivity]. Qed.

(** ** C2 *)

(** A reply that parses and is a dict gets the three defaults; a failed call
    ends in the fallback verdict (or, for [KeyboardInterrupt] and for a
    [JSONDecodeError] raised by the call itself, in an exception). *)
Lemma analyze_npd_path_dict_reply d :
  analyze_npd_path (Response 200 (Some (PDict d))) =
  inr (PDict (fold_left (fun d f => match dict_get d f with
                                    | Some _ => d
                                    | None => dict_set d f (field_default f)
                                    end) required_fields d)).
Proof.
  unfold analyze_npd_path, npd_try_body. simpl.
  destruct (dict_get d "has_dangerous_path"); simpl;
  match goal with |- context [dict_get ?d' "is_bug"] =>
    destruct (dict_get d' "is_bug") end; simpl;
  match goal with |- context [dict_get ?d' "severity"] =>
    destruct (dict_get d' "severity") end; reflexivity.
Qed.

(** The reply [["has_dangerous_path", "is_bug", "severity"]]: a JSON list
    that contains the three field names. *)
Definition reply_field_name_list : api_response :=
  Response 200 (Some (PList [PStr "has_dangerous_path"; PStr "is_bug";
                             PStr "severity"])).

(** C2 is broken by this reply: every [field in result] holds for the list,
    so [analyze_npd_path] returns the list itself instead of a verdict dict,
    and the caller's [llm_result.get('is_bug')] raises [AttributeError]. *)
Theorem analyze_npd_path_returns_list :
  analyze_npd_path reply_field_name_list =
    inr (PList [PStr "has_dangerous_path"; PStr "is_bug"; PStr "severity"]) /\
  (forall func file na aa,
     candidate_outcome reply_field_name_list func file na aa = inl AttributeError).
Proof. split; [reflexivity | intros; reflexivity]. Qed.

(** ** C8 *)

Section StableSortFacts.
Context {A : Type} (key : A -> nat).

Lemma insert_by_key_perm x l : Permutation (x :: l) (insert_by_key key x l).
Proof.
  induction l as [|y l IH]; simpl; [reflexivity |].
  destruct (Nat.leb (key x) (key y)); [reflexivity |].
  rewrite perm_swap. constructor. exact IH.
Qed.

Lemma sorted_by_key_perm l : Permutation l (sorted_by_key key l).
Proof.
  induction l as [|x l IH]; simpl; [reflexivity |].
  rewrite <- insert_by_key_perm. constructor. exact IH.
Qed.

Lemma insert_by_key_sorted x l :
  Sorted (fun a b => key a <= key b) l ->
  Sorted (fun a b => key a <= key b) (insert_by_key key x l).
Proof.
  induction 1 as [|y l Hl IH Hhd]; simpl; [repeat constructor |].
  destruct (Nat.leb_spec (key x) (key y)) as [Hxy | Hxy].
  - constructor; [constructor; assumption | constructor; exact Hxy].
  - constructor; [exact IH |].
    destruct l as [|z l]; simpl; [constructor; lia |].
    inversion Hhd; subst.
    destruct (Nat.leb (key x) (key z)); constructor; lia.
Qed.

Lemma sorted_by_key_sorted l :
  Sorted (fun a b => key a <= key b) (sorted_by_key key l).
Proof.
  induction l as [|x l IH]; simpl; [constructor | apply insert_by_key_sorted, IH].
Qed.

(** Everything [x] is inserted after has a strictly smaller key. *)
Lemma insert_by_key_filter x l r :
  filter (fun a => Nat.eqb (key a) r) (insert_by_key key x l) =
  if Nat.eqb (key x) r then x :: filter (fun a => Nat.eqb (key a) r) l
  else filter (fun a => Nat.eqb (key a) r) l.
Proof.
  induction l as [|y l IH]; simpl.
  - destruct (Nat.eqb (key x) r); reflexivity.
  - destruct (Nat.leb_spec (key x) (key y)) as [Hxy | Hxy]; simpl.
    + destruct (Nat.eqb (key x) r); reflexivity.
    + rewrite IH.
      destruct (Nat.eqb_spec (key y) r), (Nat.eqb_spec (key x) r); try lia;
        reflexivity.
Qed.

Lemma sorted_by_key_stable l r :
  filter (fun a => Nat.eqb (key a) r) (sorted_by_key key l) =
  filter (fun a => Nat.eqb (key a) r) l.
Proof.
  induction l as [|x l IH]; simpl; [reflexivity |].
  rewrite insert_by_key_filter, IH. reflexivity.
Qed.
End StableSortFacts.

(** C8: the ranking puts Critical (0) before High (1), Medium (2), Low (3)
    and every other severity (4); it is a permutation of the findings,
    ordered by rank, keeps findings of equal rank in discovery order, and
    ranks [Low, Critical, High] as [Critical, High, Low]. *)
Theorem rank_findings_total_stable :
  severity_rank "Critical" = 0 /\ severity_rank "High" = 1 /\
  severity_rank "Medium" = 2 /\ severity_rank "Low" = 3 /\
  (forall s, ~ In s ["Critical"; "High"; "Medium"; "Low"] -> severity_rank s = 4) /\
  (forall l,
     Permutation l (rank_findings l) /\
     Sorted (fun p q => severity_rank (fst p) <= severity_rank (fst q))
            (rank_findings l) /\
     (forall r, filter (fun p => Nat.eqb (severity_rank (fst p)) r) (rank_findings l) =
                filter (fun p => Nat.eqb (severity_rank (fst p)) r) l)) /\
  (forall b1 b2 b3,
     rank_findings [("Low", b1); ("Critical", b2); ("High", b3)] =
     [("Critical", b2); ("High", b3); ("Low", b1)]).
Proof.
  repeat split; try reflexivity.
  - intros s Hs. unfold severity_rank.
    destruct (String.eqb_spec s "Critical"); [subst; simpl in Hs; tauto |].
    destruct (String.eqb_spec s "High"); [subst; simpl in Hs; tauto |].
    destruct (String.eqb_spec s "Medium"); [subst; simpl in Hs; tauto |].
    destruct (String.eqb_spec s "Low"); [subst; simpl in Hs; tauto |].
    reflexivity.
  - apply sorted_by_key_perm.
  - apply sorted_by_key_sorted.
  - intros r. apply sorted_by_key_stable.
Qed.

(** ** C9 *)

(** C9 fails: with the environment ready and the target present, a
    [KeyboardInterrupt] during the analysis ends in [sys.exit(0)]. *)
Lemma interrupted_run_exits_zero :
  main true (Some "t.py") (fun _ => true) (inl KeyboardInterrupt)
       (fun _ => inr tt) = 0.
Proof. reflexivity. Qed.

Definition target_of (argv1 : option string) : string :=
  match argv1 with Some t => t | None => default_target end.

(** C9 (amended): [main] exits 1 when the environment check fails, when the
    target (given, or the default one) is missing, and when an [Exception]
    escapes the analysis; it exits 0 when the analysis is interrupted by
    [KeyboardInterrupt]; after a completed analysis it exits 0, with or
    without findings, unless the report phase raises (then non-zero). *)
Theorem main_exit_status : forall env argv1 path_exists analysis reporting,
  (env = false -> main env argv1 path_exists analysis reporting = 1) /\
  (env = true -> path_exists (target_of argv1) = false ->
   main env argv1 path_exists analysis reporting = 1) /\
  (env = true -> path_exists (target_of argv1) = true ->
   (analysis = inl KeyboardInterrupt ->
    main env argv1 path_exists analysis reporting = 0) /\
   (forall e, analysis = inl e -> e <> KeyboardInterrupt ->
    main env argv1 path_exists analysis reporting = 1) /\
   (forall bugs, analysis = inr bugs ->
    (bugs = [] \/ exists u, reporting bugs = inr u) ->
    main env argv1 path_exists analysis reporting = 0) /\
   (forall bugs e, analysis = inr bugs -> bugs <> [] -> reporting bugs = inl e ->
    main env argv1 path_exists analysis reporting <> 0)).
Proof.
  intros env argv1 path_exists analysis reporting.
  unfold main, target_of.
  split; [intros ->; reflexivity |].
  split.
  - intros -> Hx. simpl.
    destruct argv1 as [t|]; rewrite Hx; reflexivity.
  - intros -> Hx. simpl.
    assert (Hgate : match argv1 with
                    | None => negb (path_exists default_target)
                    | Some _ => false end = false)
      by (destruct argv1; [reflexivity | rewrite Hx; reflexivity]).
    rewrite Hgate, Hx. simpl.
    split; [intros ->; reflexivity |]. split.
    + intros e -> He. destruct e; congruence.
    + split.
      * intros bugs -> [-> | (u & Hu)]; [reflexivity |].
        destruct bugs; [reflexivity | rewrite Hu; reflexivity].
      * intros bugs e -> Hb Hr. destruct bugs as [|b bs]; [congruence |].
        rewrite Hr. destruct e; simpl; discriminate.
Qed.

(** ** C10 *)

Lemma visit_funcs_eq lines n :
  visit_funcs lines n =
  match unit_of lines n with Some u => [u] | None => [] end ++
  flat_map (visit_funcs lines) (node_children n).
Proof.
  destruct n as [t x r e cs]. simpl. f_equal.
  all: induction cs as [|c cs IH]; simpl; [reflexivity | rewrite IH; reflexivity].
Qed.

Lemma find_null_assignments_eq n :
  find_null_assignments n =
  match null_assignment_at n with Some e => [e] | None => [] end ++
  flat_map find_null_assignments (node_children n).
Proof.
  destruct n as [t x r e cs]. simpl. f_equal.
  all: induction cs as [|c cs IH]; simpl; [reflexivity | rewrite IH; reflexivity].
Qed.

Lemma find_null_assignments_in_tree : forall n ev,
  In ev (find_null_assignments n) <->
  exists m, in_tree m n /\ null_assignment_at m = Some ev.
Proof.
  induction n as [t x r e cs Hcs] using node_ind_nested; intros ev.
  rewrite find_null_assignments_eq, in_app_iff, in_flat_map. simpl node_children.
  split.
  - intros [Hh | (c & Hc & Hin)].
    + exists (Node t x r e cs). split; [constructor |].
      destruct (null_assignment_at (Node t x r e cs)); simpl in Hh;
        [destruct Hh as [<- | []]; reflexivity | contradiction].
    + rewrite Forall_forall in Hcs. apply (Hcs c Hc) in Hin as (m & Hm & Hb).
      exists m. split; [econstructor; eauto | exact Hb].
  - intros (m & Hm & Hb). inversion Hm; subst.
    + left. rewrite Hb. left. reflexivity.
    + right. rewrite Forall_forall in Hcs. eexists; split; [eassumption |].
      apply Hcs; eauto.
Qed.

Lemma in_tree_trans a b n : in_tree a b -> in_tree b n -> in_tree a n.
Proof. intros Hab Hbn. induction Hbn; [exact Hab | econstructor; eauto]. Qed.

Lemma match_events_in srcs sinks na aa :
  In (na, aa) (match_events srcs sinks) <->
  In na srcs /\ In aa sinks /\ pairs_with na aa = true.
Proof.
  rewrite match_events_filter_prod, filter_In, in_prod_iff. cbn [fst snd]. tauto.
Qed.

(** A function's events include those of every function nested in it. *)
Lemma nested_candidate_in_outer f g na aa :
  in_tree g f ->
  In (na, aa) (match_events (find_null_assignments g) (find_attribute_access g)) ->
  In (na, aa) (match_events (find_null_assignments f) (find_attribute_access f)).
Proof.
  intros Hgf H. apply match_events_in in H as (Hna & Haa & Hp).
  apply match_events_in. split; [| split; [| exact Hp]].
  - apply find_null_assignments_in_tree in Hna as (m & Hm & Hb).
    apply find_null_assignments_in_tree. exists m. split; [eapply in_tree_trans; eauto | exact Hb].
  - apply (proj2 (find_attribute_access_spec g)) in Haa as (m & Hm & Hb).
    apply (proj2 (find_attribute_access_spec f)). exists m.
    split; [eapply in_tree_trans; eauto | exact Hb].
Qed.

Lemma visit_funcs_infix lines f root :
  in_tree f root ->
  exists pre post, visit_funcs lines root = pre ++ visit_funcs lines f ++ post.
Proof.
  induction 1 as [| t x r e cs c Hc Hin IH].
  - exists [], []. rewrite app_nil_r. reflexivity.
  - destruct IH as (pre & post & Heq).
    apply in_split in Hc as (l1 & l2 & ->).
    rewrite visit_funcs_eq.
    set (here := match unit_of lines (Node t x r e (l1 ++ c :: l2)) with
                 | Some u => [u] | None => [] end).
    change (node_children (Node t x r e (l1 ++ c :: l2))) with (l1 ++ c :: l2).
    rewrite flat_map_app. cbn [flat_map]. rewrite Heq.
    exists (here ++ flat_map (visit_funcs lines) l1 ++ pre),
           (post ++ flat_map (visit_funcs lines) l2).
    rewrite <- !app_assoc. reflexivity.
Qed.

(** The requests one unit sends, in order. *)
Definition unit_requests (u : func_unit) : list request :=
  map (fun p => request_of u (fst p) (snd p))
      (match_events (find_null_assignments (fnode u)) (find_attribute_access (fnode u))).

Lemma match_events_nil_r srcs : match_events srcs [] = [].
Proof. induction srcs; simpl; auto. Qed.

Section OracleCalls.
Variable ask : nat -> request -> api_response.

Lemma check_matches_calls func file : forall ms calls bugs calls' bs,
  check_matches ask func file ms calls bugs = (calls', inr bs) ->
  calls' = calls ++ map (fun p => request_of func (fst p) (snd p)) ms.
Proof.
  induction ms as [|[na aa] ms IH]; intros calls bugs calls' bs H; simpl in *.
  - inversion H. rewrite app_nil_r. reflexivity.
  - destruct (candidate_outcome _ func file na aa) as [e | [b|]].
    + discriminate.
    + apply IH in H. rewrite H, <- app_assoc. reflexivity.
    + apply IH in H. rewrite H, <- app_assoc. reflexivity.
Qed.

Lemma analyze_function_calls u file calls calls' bs :
  analyze_function ask u file calls = (calls', inr bs) ->
  calls' = calls ++ unit_requests u.
Proof.
  unfold analyze_function, unit_requests.
  destruct (find_null_assignments (fnode u)) as [|na nas].
  - intros H; inversion H; subst. simpl. rewrite app_nil_r. reflexivity.
  - destruct (find_attribute_access (fnode u)) as [|aa aas].
    + intros H; inversion H; subst. rewrite match_events_nil_r.
      simpl. rewrite app_nil_r. reflexivity.
    + destruct (match_events (na :: nas) (aa :: aas)) as [|m ms] eqn:Hm.
      * intros H; inversion H; subst. simpl. rewrite app_nil_r. reflexivity.
      * intros H. apply check_matches_calls in H. exact H.
Qed.

Lemma analyze_units_calls file : forall us calls acc calls' bs,
  analyze_units ask us file calls acc = (calls', inr bs) ->
  calls' = calls ++ flat_map unit_requests us.
Proof.
  induction us as [|u us IH]; intros calls acc calls' bs H; simpl in *.
  - inversion H. rewrite app_nil_r. reflexivity.
  - destruct (analyze_function ask u file calls) as [c1 [e | b1]] eqn:Ha;
      [discriminate |].
    apply analyze_function_calls in Ha. apply IH in H.
    rewrite H, Ha, <- app_assoc. reflexivity.
Qed.
End OracleCalls.

Lemma unit_of_fnode lines n u : unit_of lines n = Some u -> fnode u = n.
Proof.
  unfold unit_of. destruct (String.eqb (node_type n) "function_definition"); [| discriminate].
  destruct (first_identifier (node_children n)); [| discriminate].
  intros H; inversion H; reflexivity.
Qed.

Lemma in_unit_funcs lines n u :
  unit_of lines n = Some u -> In u (visit_funcs lines n).
Proof. intros H. rewrite visit_funcs_eq, H. left. reflexivity. Qed.

Lemma filter_length_pos {A} (p : A -> bool) x l :
  In x l -> p x = true -> 1 <= length (filter p l).
Proof.
  intros Hx Hp. assert (Hf : In x (filter p l)) by (apply filter_In; auto).
  destruct (filter p l); [destruct Hf | simpl; lia].
Qed.

(** The request is about the candidate [(na, aa)]: same variable, same
    source line, same sink line. *)
Definition same_candidate (na aa : event) (req : request) : bool :=
  String.eqb (req_var req) (variable na) && Nat.eqb (req_null_line req) (line na) &&
  Nat.eqb (req_use_line req) (line aa).

Lemma unit_requests_candidate lines n u na aa :
  unit_of lines n = Some u ->
  In (na, aa) (match_events (find_null_assignments n) (find_attribute_access n)) ->
  1 <= length (filter (same_candidate na aa) (unit_requests u)).
Proof.
  intros Hu Hin. apply (filter_length_pos _ (request_of u na aa)).
  - unfold unit_requests. rewrite (unit_of_fnode _ _ _ Hu).
    apply in_map_iff. exists (na, aa). auto.
  - unfold same_candidate, request_of. simpl.
    rewrite String.eqb_refl, !Nat.eqb_refl. reflexivity.
Qed.

(** C10: let [g] be a function definition nested in a function definition
    [f] of the file, both named. Every candidate of [g]'s unit is also a
    candidate of [f]'s unit, and a file analysis that runs to its end sends
    the oracle a request for it at least twice (once from each unit). *)
Theorem nested_function_candidate_submitted_twice :
  forall ask root source_code file calls0 calls bugs f c g uf ug na aa,
    in_tree f root -> In c (node_children f) -> in_tree g c ->
    unit_of (split_lines source_code) f = Some uf ->
    unit_of (split_lines source_code) g = Some ug ->
    In (na, aa) (match_events (find_null_assignments g) (find_attribute_access g)) ->
    analyze_file ask (Some (root, source_code)) file calls0 = (calls, inr bugs) ->
    In (na, aa) (match_events (find_null_assignments f) (find_attribute_access f)) /\
    2 <= length (filter (same_candidate na aa) calls).
Proof.
  intros ask root source_code file calls0 calls bugs f c g uf ug na aa
         Hf Hc Hg Huf Hug Hcand Hrun.
  set (lines := split_lines source_code) in *.
  assert (Hgf : in_tree g f) by (destruct f; econstructor; eauto).
  pose proof (nested_candidate_in_outer f g na aa Hgf Hcand) as Hcand_f.
  split; [exact Hcand_f |].
  unfold analyze_file in Hrun. apply analyze_units_calls in Hrun. subst calls.
  unfold extract_functions. fold lines.
  destruct (visit_funcs_infix lines f root Hf) as (pre & post & Hroot).
  rewrite Hroot, (visit_funcs_eq lines f), Huf.
  assert (Hug_in : In ug (flat_map (visit_funcs lines) (node_children f))).
  { apply in_flat_map. exists c. split; [exact Hc |].
    destruct (visit_funcs_infix lines g c Hg) as (pre' & post' & Hc').
    rewrite Hc'. apply in_or_app. right. apply in_or_app. left.
    apply in_unit_funcs, Hug. }
  apply in_split in Hug_in as (m1 & m2 & Hm). rewrite Hm.
  pose proof (unit_requests_candidate lines f uf na aa Huf Hcand_f) as H1.
  pose proof (unit_requests_candidate lines g ug na aa Hug Hcand) as H2.
  repeat (rewrite flat_map_app || (progress cbn [flat_map])).
  rewrite !filter_app, !length_app. lia.
Qed.

(** [def f():] (row 0) holding [def g():] (row 1), whose body is
    [x = None] (row 2) and [return x.y] (row 3). *)
Definition ex_nested_g : node :=
  Node "function_definition" "def g(): ..." 1 3
    [tok "def" 1; ident "g" 1; Node "parameters" "()" 1 1 []; tok ":" 1;
     Node "block" "" 2 3
       [Node "expression_statement" "x = None" 2 2
          [Node "assignment" "x = None" 2 2
             [ident "x" 2; tok "=" 2; Node "none" "None" 2 2 []]];
        Node "return_statement" "return x.y" 3 3
          [tok "return" 3;
           Node "attribute" "x.y" 3 3 [ident "x" 3; tok "." 3; ident "y" 3]]]].

Definition ex_nested_block : node := Node "block" "" 1 3 [ex_nested_g].

Definition ex_nested_f : node :=
  Node "function_definition" "def f(): ..." 0 3
    [tok "def" 0; ident "f" 0; Node "parameters" "()" 0 0 []; tok ":" 0;
     ex_nested_block].

Definition ex_module : node := Node "module" "" 0 3 [ex_nested_f].

(** An oracle that always answers "not a bug". *)
Definition ask_not_bug (i : nat) (req : request) : api_response :=
  Response 200 (Some (PDict [("has_dangerous_path", PBool false);
                             ("is_bug", PBool false); ("severity", PStr "Low")])).

Lemma nested_function_candidate_submitted_twice_witness :
  In (Event "x" 3, Event "x" 4)
     (match_events (find_null_assignments ex_nested_f)
                   (find_attribute_access ex_nested_f)) /\
  2 <= length (filter (same_candidate (Event "x" 3) (Event "x" 4))
                 (fst (analyze_file ask_not_bug (Some (ex_module, "")) "t.py" []))).
Proof.
  apply (nested_function_candidate_submitted_twice ask_not_bug ex_module "" "t.py" []
           (fst (analyze_file ask_not_bug (Some (ex_module, "")) "t.py" [])) []
           ex_nested_f ex_nested_block ex_nested_g
           (FuncUnit "f" 1 4 "" ex_nested_f) (FuncUnit "g" 2 4 "" ex_nested_g)
           (Event "x" 3) (Event "x" 4)).
  - econstructor; [left; reflexivity | constructor].
  - simpl. right; right; right; right; left. reflexivity.
  - econstructor; [left; reflexivity | constructor].
  - reflexivity.
  - reflexivity.
  - vm_compute. left. reflexivity.
  - vm_compute. reflexivity.
Defined.

(** * Further properties of the code *)

Local Open Scope string_scope.

(** ** String helpers *)

Lemma str_app_assoc (a b c : string) : (a ++ b) ++ c = a ++ (b ++ c).
Proof. induction a as [|x a IH]; simpl; [reflexivity | rewrite IH; reflexivity]. Qed.

Lemma str_app_nil_r (a : string) : a ++ "" = a.
Proof. induction a as [|x a IH]; simpl; [reflexivity | rewrite IH; reflexivity]. Qed.

Lemma list_ascii_of_string_app (a b : string) :
  list_ascii_of_string (a ++ b) = (list_ascii_of_string a ++ list_ascii_of_string b)%list.
Proof. induction a as [|x a IH]; simpl; [reflexivity | rewrite IH; reflexivity]. Qed.

(** ** [_escape_html] *)

Lemma replace_char_app o n a b :
  replace_char o n (a ++ b) = replace_char o n a ++ replace_char o n b.
Proof.
  induction a as [|c a IH]; simpl; [reflexivity |].
  rewrite IH, str_app_assoc. reflexivity.
Qed.

(** What [escape_html] makes of one character. *)
Definition escape_char (c : Ascii.ascii) : string :=
  if Ascii.eqb c amp_c then "&amp;"
  else if Ascii.eqb c lt_c then "&lt;"
  else if Ascii.eqb c gt_c then "&gt;"
  else if Ascii.eqb c quot_c then "&quot;"
  else if Ascii.eqb c apos_c then "&#39;"
  else String c EmptyString.

Lemma replace_char_single o n c :
  replace_char o n (String c EmptyString) =
  if Ascii.eqb c o then n else String c EmptyString.
Proof. simpl. apply str_app_nil_r. Qed.

Lemma escape_html_char c : escape_html (String c EmptyString) = escape_char c.
Proof.
  unfold escape_html, escape_char.
  destruct (Ascii.eqb_spec c amp_c) as [-> | H1]; [reflexivity |].
  destruct (Ascii.eqb_spec c lt_c) as [-> | H2]; [reflexivity |].
  destruct (Ascii.eqb_spec c gt_c) as [-> | H3]; [reflexivity |].
  destruct (Ascii.eqb_spec c quot_c) as [-> | H4]; [reflexivity |].
  destruct (Ascii.eqb_spec c apos_c) as [-> | H5]; [reflexivity |].
  rewrite replace_char_single, (proj2 (Ascii.eqb_neq _ _) H1).
  rewrite replace_char_single, (proj2 (Ascii.eqb_neq _ _) H2).
  rewrite replace_char_single, (proj2 (Ascii.eqb_neq _ _) H3).
  rewrite replace_char_single, (proj2 (Ascii.eqb_neq _ _) H4).
  rewrite replace_char_single, (proj2 (Ascii.eqb_neq _ _) H5).
  reflexivity.
Qed.

Lemma escape_html_cons c s :
  escape_html (String c s) = escape_char c ++ escape_html s.
Proof.
  rewrite <- escape_html_char.
  change (String c s) with (String c EmptyString ++ s).
  unfold escape_html. rewrite !replace_char_app. reflexivity.
Qed.

Definition html_special (c : Ascii.ascii) : bool :=
  Ascii.eqb c amp_c || Ascii.eqb c lt_c || Ascii.eqb c gt_c ||
  Ascii.eqb c quot_c || Ascii.eqb c apos_c.

Lemma escape_char_cases c :
  (html_special c = false /\ escape_char c = String c EmptyString) \/
  (c = amp_c /\ escape_char c = "&amp;") \/ (c = lt_c /\ escape_char c = "&lt;") \/
  (c = gt_c /\ escape_char c = "&gt;") \/ (c = quot_c /\ escape_char c = "&quot;") \/
  (c = apos_c /\ escape_char c = "&#39;").
Proof.
  unfold escape_char, html_special.
  destruct (Ascii.eqb_spec c amp_c); [subst; auto 7 |].
  destruct (Ascii.eqb_spec c lt_c); [subst; auto 7 |].
  destruct (Ascii.eqb_spec c gt_c); [subst; auto 7 |].
  destruct (Ascii.eqb_spec c quot_c); [subst; auto 7 |].
  destruct (Ascii.eqb_spec c apos_c); [subst; auto 7 |].
  left. split; reflexivity.
Qed.

(** The five entities form a prefix code, and no other character starts
    with an ampersand. *)
Lemma escape_char_inj c1 c2 t1 t2 :
  escape_char c1 ++ t1 = escape_char c2 ++ t2 -> c1 = c2 /\ t1 = t2.
Proof.
  intros H.
  destruct (escape_char_cases c1) as [[S1 E1] | [[-> E1] | [[-> E1] | [[-> E1] | [[-> E1] | [-> E1]]]]]];
  destruct (escape_char_cases c2) as [[S2 E2] | [[-> E2] | [[-> E2] | [[-> E2] | [[-> E2] | [-> E2]]]]]];
  rewrite E1 in H; try rewrite E2 in H; simpl in H; inversion H; subst; auto;
  unfold html_special in *; simpl in *; discriminate.
Qed.

(** X1: the escaped text holds no less-than, greater-than, double or single
    quote character, and every ampersand in it starts one of the five
    entities; text without the five special characters is left as it is. *)
Theorem escape_html_no_raw_specials : forall s,
  (forall c, In c (list_ascii_of_string (escape_html s)) ->
   c <> lt_c /\ c <> gt_c /\ c <> quot_c /\ c <> apos_c) /\
  ((forall c, In c (list_ascii_of_string s) -> html_special c = false) ->
   escape_html s = s).
Proof.
  induction s as [|c s [IH1 IH2]]; [split; [intros c [] | reflexivity] |].
  rewrite escape_html_cons. split.
  - intros d Hd. rewrite list_ascii_of_string_app, in_app_iff in Hd.
    destruct Hd as [Hd | Hd]; [| apply IH1, Hd].
    destruct (escape_char_cases c) as [[S E] | [[-> E] | [[-> E] | [[-> E] | [[-> E] | [-> E]]]]]];
      rewrite E in Hd; simpl in Hd;
      repeat (destruct Hd as [<- | Hd]; [repeat split; intro Heq; try (subst; discriminate);
                                         unfold html_special in S; rewrite Heq in S;
                                         discriminate |]);
      contradiction.
  - intros Hs. rewrite IH2 by (intros d Hd; apply Hs; right; exact Hd).
    destruct (escape_char_cases c) as [[S E] | [[-> E] | [[-> E] | [[-> E] | [[-> E] | [-> E]]]]]];
      [rewrite E; reflexivity | ..];
      specialize (Hs _ (or_introl eq_refl)); discriminate.
Qed.

(** X2: escaping loses nothing: two texts with the same escaped form are
    equal. *)
Theorem escape_html_injective : forall s1 s2,
  escape_html s1 = escape_html s2 -> s1 = s2.
Proof.
  induction s1 as [|c1 s1 IH]; intros [|c2 s2] H.
  - reflexivity.
  - rewrite escape_html_cons in H.
    destruct (escape_char_cases c2) as [[_ E] | [[_ E] | [[_ E] | [[_ E] | [[_ E] | [_ E]]]]]];
      rewrite E in H; discriminate.
  - rewrite escape_html_cons in H.
    destruct (escape_char_cases c1) as [[_ E] | [[_ E] | [[_ E] | [[_ E] | [[_ E] | [_ E]]]]]];
      rewrite E in H; discriminate.
  - rewrite !escape_html_cons in H. apply escape_char_inj in H as [-> H].
    f_equal. apply IH, H.
Qed.

Lemma escape_html_injective_witness :
  escape_html "a<b & 'c'" = "a&lt;b &amp; &#39;c&#39;" /\ "a<b & 'c'" = "a<b & 'c'".
Proof.
  split; [reflexivity |].
  apply escape_html_injective. reflexivity.
Defined.

(** ** [source_code.split('\n')] and ['\n'.join(...)] *)

Definition newline : Ascii.ascii := Ascii.ascii_of_nat 10.

Lemma split_nl_from_cons s cur :
  exists l ls, split_nl_from s cur = l :: ls.
Proof.
  revert cur. induction s as [|c s IH]; intros cur; simpl; [eauto |].
  destruct (Ascii.eqb c (Ascii.ascii_of_nat 10)); eauto.
Qed.

Lemma concat_split_nl_from s cur :
  String.concat (String newline "") (split_nl_from s cur) = cur ++ s.
Proof.
  revert cur. induction s as [|c s IH]; intros cur; simpl.
  - symmetry. apply str_app_nil_r.
  - destruct (Ascii.eqb_spec c (Ascii.ascii_of_nat 10)) as [-> | Hc].
    + destruct (split_nl_from_cons s "") as [l [ls E]].
      simpl. rewrite E. rewrite <- E, IH. reflexivity.
    + rewrite IH, str_app_assoc. reflexivity.
Qed.

Lemma split_nl_from_no_newline s cur l :
  ~ In newline (list_ascii_of_string cur) ->
  In l (split_nl_from s cur) -> ~ In newline (list_ascii_of_string l).
Proof.
  revert cur. induction s as [|c s IH]; intros cur Hcur Hl; simpl in Hl.
  - destruct Hl as [<- | []]. exact Hcur.
  - destruct (Ascii.eqb_spec c (Ascii.ascii_of_nat 10)) as [-> | Hc].
    + destruct Hl as [<- | Hl]; [exact Hcur |]. apply (IH ""); [intros [] | exact Hl].
    + apply (IH (cur ++ String c "")); [| exact Hl].
      rewrite list_ascii_of_string_app, in_app_iff. simpl.
      intros [H | [H | []]]; [exact (Hcur H) | exact (Hc H)].
Qed.

(** X3: splitting the source at newlines cuts it into lines that hold no
    newline, and a slice from row 0 that reaches the last line joins them
    back into the whole source unchanged. *)
Theorem split_lines_slice_round_trip (s : string) (r : nat) :
  length (split_lines s) <= r + 1 ->
  (forall l, In l (split_lines s) -> ~ In newline (list_ascii_of_string l)) /\
  slice_code (split_lines s) 0 r = s.
Proof.
  intros Hr. split.
  - intros l. apply split_nl_from_no_newline. intros [].
  - unfold slice_code. rewrite Nat.sub_0_r, skipn_O, firstn_all2 by exact Hr.
    apply concat_split_nl_from.
Qed.

Lemma split_lines_slice_round_trip_witness :
  length (split_lines "a
b") <= 1 + 1 /\
  slice_code (split_lines "a
b") 0 1 = "a
b".
Proof.
  split; [vm_compute; lia |].
  apply (proj2 (split_lines_slice_round_trip "a
b" 1 ltac:(vm_compute; lia))).
Defined.

Local Open Scope list_scope.

(** ** The ranking in [main] *)

Section StableSortFixed.
Context {A : Type} (key : A -> nat).

Lemma sorted_by_key_id l :
  Sorted (fun a b => key a <= key b) l -> sorted_by_key key l = l.
Proof.
  induction 1 as [|x l Hl IH Hhd]; simpl; [reflexivity |].
  rewrite IH. destruct Hhd as [|y l' Hxy]; simpl; [reflexivity |].
  apply Nat.leb_le in Hxy. rewrite Hxy. reflexivity.
Qed.
End StableSortFixed.

(** X4: the ranking leaves a list of findings unchanged exactly when the
    findings already come in order of severity rank (Critical, High, Medium,
    Low, then every other severity); ranking twice is ranking once. *)
Theorem rank_findings_fixed_points (ranked : list (string * bug)) :
  (rank_findings ranked = ranked <->
   Sorted (fun a b => severity_rank (fst a) <= severity_rank (fst b)) ranked) /\
  rank_findings (rank_findings ranked) = rank_findings ranked.
Proof.
  unfold rank_findings. split; [split |].
  - intros E. rewrite <- E. apply sorted_by_key_sorted.
  - apply sorted_by_key_id.
  - apply sorted_by_key_id, sorted_by_key_sorted.
Qed.

(** ** Where the walks find their nodes *)

Lemma first_identifier_spec cs v :
  first_identifier cs = Some v <->
  exists pre post, cs = pre ++ v :: post /\ node_type v = "identifier" /\
                   (forall c, In c pre -> node_type c <> "identifier").
Proof.
  induction cs as [|c cs IH]; simpl.
  - split; [discriminate |]. intros (pre & post & E & _). destruct pre; discriminate.
  - destruct (String.eqb_spec (node_type c) "identifier") as [Hc | Hc]; split.
    + intros H; inversion H; subst. exists [], cs. simpl. auto.
    + intros ([|p pre] & post & E & Hv & Hpre); simpl in E; inversion E; subst;
        [reflexivity |].
      exfalso. apply (Hpre p); [left; reflexivity | exact Hc].
    + intros H. apply IH in H as (pre & post & E & Hv & Hpre).
      exists (c :: pre), post. subst. split; [reflexivity |]. split; [exact Hv |].
      intros d [<- | Hd]; [exact Hc | apply Hpre, Hd].
    + intros ([|p pre] & post & E & Hv & Hpre); simpl in E; inversion E; subst;
        [contradiction |].
      apply IH. exists pre, post. split; [reflexivity |]. split; [exact Hv |].
      intros d Hd. apply Hpre. right. exact Hd.
Qed.

Lemma last_identifier_spec cs v :
  first_identifier (rev cs) = Some v <->
  exists pre post, cs = pre ++ v :: post /\ node_type v = "identifier" /\
                   (forall c, In c post -> node_type c <> "identifier").
Proof.
  rewrite first_identifier_spec. split.
  - intros (pre & post & E & Hv & Hpre). exists (rev post), (rev pre).
    split; [| split; [exact Hv | intros c Hc; apply Hpre, in_rev, Hc]].
    rewrite <- (rev_involutive cs), E, rev_app_distr. simpl. rewrite <- app_assoc. reflexivity.
  - intros (pre & post & E & Hv & Hpost). exists (rev post), (rev pre).
    split; [| split; [exact Hv | intros c Hc; apply Hpost, in_rev, Hc]].
    rewrite E, rev_app_distr. simpl. rewrite <- app_assoc. reflexivity.
Qed.

Lemma first_identifier_app l1 l2 :
  first_identifier (l1 ++ l2) =
  match first_identifier l1 with Some x => Some x | None => first_identifier l2 end.
Proof.
  induction l1 as [|c l1 IH]; simpl; [reflexivity |].
  destruct (String.eqb (node_type c) "identifier"); [reflexivity | exact IH].
Qed.

Lemma scan_assignment_fold cs h v :
  fold_left (fun acc c =>
               let '(has_none, var_node) := acc in
               if String.eqb (node_type c) "none" then (true, var_node)
               else if String.eqb (node_type c) "identifier" then (has_none, Some c)
               else (has_none, var_node)) cs (h, v) =
  (h || existsb (fun c => String.eqb (node_type c) "none") cs,
   match first_identifier (rev cs) with Some x => Some x | None => v end).
Proof.
  revert h v. induction cs as [|c cs IH]; intros h v; simpl.
  - rewrite orb_false_r. reflexivity.
  - rewrite first_identifier_app. simpl.
    destruct (String.eqb_spec (node_type c) "none") as [Hn | Hn].
    + rewrite IH, Hn. simpl. rewrite orb_true_r. f_equal.
      destruct (first_identifier (rev cs)); reflexivity.
    + apply String.eqb_neq in Hn. rewrite ?Hn.
      destruct (String.eqb (node_type c) "identifier"); rewrite IH; simpl; rewrite ?Hn;
        destruct (first_identifier (rev cs)); reflexivity.
Qed.

Lemma scan_assignment_spec cs :
  scan_assignment cs =
  (existsb (fun c => String.eqb (node_type c) "none") cs, first_identifier (rev cs)).
Proof.
  unfold scan_assignment. rewrite scan_assignment_fold. simpl.
  destruct (first_identifier (rev cs)); reflexivity.
Qed.

(** X5: the sources of a function are the [assignment] nodes anywhere in its
    tree (nested blocks and nested functions included) that have a direct
    child of type [none]; the variable reported is the last direct child of
    type [identifier], with that child's line. *)
Theorem find_null_assignments_characterization (n : node) (ev : event) :
  In ev (find_null_assignments n) <->
  exists m, in_tree m n /\ node_type m = "assignment" /\
    (exists c, In c (node_children m) /\ node_type c = "none") /\
    exists pre v post, node_children m = pre ++ v :: post /\
      node_type v = "identifier" /\
      (forall c, In c post -> node_type c <> "identifier") /\
      ev = Event (node_text v) (line_of v).
Proof.
  rewrite find_null_assignments_in_tree. unfold null_assignment_at.
  split.
  - intros (m & Hm & H). exists m. split; [exact Hm |].
    destruct (String.eqb_spec (node_type m) "assignment") as [Ht | Ht]; [| discriminate].
    rewrite scan_assignment_spec in H.
    destruct (existsb _ (node_children m)) eqn:Hnone; [| discriminate].
    destruct (first_identifier (rev (node_children m))) as [v |] eqn:Hv; [| discriminate].
    inversion H; subst. split; [exact Ht |]. split.
    + apply existsb_exists in Hnone as (c & Hc & Hct). exists c.
      split; [exact Hc | apply String.eqb_eq, Hct].
    + apply last_identifier_spec in Hv as (pre & post & E & Hid & Hpost).
      exists pre, v, post. auto.
  - intros (m & Hm & Ht & (c & Hc & Hct) & pre & v & post & E & Hid & Hpost & ->).
    exists m. split; [exact Hm |]. rewrite Ht, String.eqb_refl, scan_assignment_spec.
    replace (existsb _ (node_children m)) with true
      by (symmetry; apply existsb_exists; exists c; split; [exact Hc | apply String.eqb_eq, Hct]).
    replace (first_identifier (rev (node_children m))) with (Some v)
      by (symmetry; apply last_identifier_spec; exists pre, post; auto).
    reflexivity.
Qed.

Lemma visit_funcs_in_tree lines : forall n u,
  In u (visit_funcs lines n) <-> exists m, in_tree m n /\ unit_of lines m = Some u.
Proof.
  induction n as [t x r e cs Hcs] using node_ind_nested; intros u.
  rewrite visit_funcs_eq, in_app_iff, in_flat_map. simpl node_children.
  split.
  - intros [Hh | (c & Hc & Hin)].
    + exists (Node t x r e cs). split; [constructor |].
      destruct (unit_of lines (Node t x r e cs)); simpl in Hh;
        [destruct Hh as [<- | []]; reflexivity | contradiction].
    + rewrite Forall_forall in Hcs. apply (Hcs c Hc) in Hin as (m & Hm & Hb).
      exists m. split; [econstructor; eauto | exact Hb].
  - intros (m & Hm & Hb). inversion Hm; subst.
    + left. rewrite Hb. left. reflexivity.
    + right. rewrite Forall_forall in Hcs. eexists; split; [eassumption |].
      apply Hcs; eauto.
Qed.

(** X6: the units [extract_functions] returns are exactly the
    [function_definition] nodes anywhere in the tree (nested ones included)
    that have a direct [identifier] child; the unit is named by the first such
    child, its lines are the node's rows plus one, and its code is the slice
    of the source from the node's first to its last row. *)
Theorem extract_functions_characterization (root : node) (source_code : string)
    (u : func_unit) :
  In u (extract_functions root source_code) <->
  exists n, in_tree n root /\ node_type n = "function_definition" /\
    exists pre c post, node_children n = pre ++ c :: post /\
      node_type c = "identifier" /\
      (forall d, In d pre -> node_type d <> "identifier") /\
      u = FuncUnit (node_text c) (node_start_row n + 1) (node_end_row n + 1)
            (slice_code (split_lines source_code) (node_start_row n) (node_end_row n)) n.
Proof.
  unfold extract_functions. rewrite visit_funcs_in_tree. unfold unit_of.
  split.
  - intros (n & Hn & H). exists n. split; [exact Hn |].
    destruct (String.eqb_spec (node_type n) "function_definition") as [Ht | Ht];
      [| discriminate].
    destruct (first_identifier (node_children n)) as [c |] eqn:Hc; [| discriminate].
    inversion H; subst. split; [exact Ht |].
    apply first_identifier_spec in Hc as (pre & post & E & Hid & Hpre).
    exists pre, c, post. auto.
  - intros (n & Hn & Ht & pre & c & post & E & Hid & Hpre & ->).
    exists n. split; [exact Hn |]. rewrite Ht, String.eqb_refl.
    replace (first_identifier (node_children n)) with (Some c)
      by (symmetry; apply first_identifier_spec; exists pre, post; auto).
    reflexivity.
Qed.

(** ** The reply handling of [analyze_npd_path] *)

Lemma dict_get_set d k v k' :
  dict_get (dict_set d k v) k' = if String.eqb k' k then Some v else dict_get d k'.
Proof.
  induction d as [|[k0 v0] d IH]; simpl.
  - destruct (String.eqb k' k); reflexivity.
  - destruct (String.eqb_spec k k0) as [<- | Hk]; simpl.
    + destruct (String.eqb k' k); reflexivity.
    + rewrite IH. destruct (String.eqb_spec k' k0) as [-> | Hk'].
      * apply String.eqb_neq in Hk. rewrite String.eqb_sym, Hk. reflexivity.
      * reflexivity.
Qed.

(** One pass of the fill loop on a dict reply. *)
Definition fill_missing (d : list (string * pyobj)) (f : string) :=
  match dict_get d f with
  | Some _ => d
  | None => dict_set d f (field_default f)
  end.

Lemma fill_missing_get : forall fs d k,
  dict_get (fold_left fill_missing fs d) k =
  match dict_get d k with
  | Some v => Some v
  | None => if existsb (String.eqb k) fs then Some (field_default k) else None
  end.
Proof.
  induction fs as [|f fs IH]; intros d k; simpl.
  - destruct (dict_get d k); reflexivity.
  - rewrite IH. unfold fill_missing.
    destruct (dict_get d f) as [vf |] eqn:Hf.
    + destruct (dict_get d k) as [v |] eqn:Hk; [reflexivity |].
      destruct (String.eqb_spec k f) as [-> | Hkf]; [congruence | reflexivity].
    + rewrite dict_get_set.
      destruct (String.eqb_spec k f) as [-> | Hkf].
      * rewrite Hf. reflexivity.
      * destruct (dict_get d k); reflexivity.
Qed.

Lemma dict_reply_get d :
  exists d', analyze_npd_path (Response 200 (Some (PDict d))) = inr (PDict d') /\
  forall k, dict_get d' k =
    match dict_get d k with
    | Some v => Some v
    | None => if existsb (String.eqb k) required_fields then Some (field_default k)
              else None
    end.
Proof.
  exists (fold_left fill_missing required_fields d). split.
  - exact (analyze_npd_path_dict_reply d).
  - intros k. apply fill_missing_get.
Qed.

(** X7: a status-200 reply that parses to a JSON object comes back as an
    object in which every key of the reply keeps its value, each missing
    required field ([has_dangerous_path], [is_bug], [severity]) is added
    with its default ([False], [False], ['Low']), and no other key is
    added. *)
Theorem dict_reply_fields (d : list (string * pyobj)) :
  exists d', analyze_npd_path (Response 200 (Some (PDict d))) = inr (PDict d') /\
  (forall k v, dict_get d k = Some v -> dict_get d' k = Some v) /\
  (forall f, In f required_fields -> dict_get d f = None ->
             dict_get d' f = Some (field_default f)) /\
  (forall k, ~ In k required_fields -> dict_get d' k = dict_get d k).
Proof.
  destruct (dict_reply_get d) as (d' & E & H). exists d'. split; [exact E |].
  split; [| split].
  - intros k v Hk. rewrite H, Hk. reflexivity.
  - intros f Hf Hn. rewrite H, Hn.
    replace (existsb (String.eqb f) required_fields) with true; [reflexivity |].
    symmetry. apply existsb_exists. exists f. split; [exact Hf | apply String.eqb_refl].
  - intros k Hk. rewrite H. destruct (dict_get d k); [reflexivity |].
    destruct (existsb (String.eqb k) required_fields) eqn:Hx; [| reflexivity].
    apply existsb_exists in Hx as (f & Hf & Hkf). apply String.eqb_eq in Hkf.
    subst. contradiction.
Qed.

Definition contains_true (o : pyobj) (f : string) : bool :=
  match py_contains o f with inr true => true | _ => false end.

Lemma fill_required_not_dict o (Ho : forall d, o <> PDict d) : forall fs,
  fill_required o fs =
  if forallb (contains_true o) fs then inr o else inl TypeError.
Proof.
  induction fs as [|f fs IH]; simpl; [reflexivity |].
  unfold contains_true at 1.
  destruct o as [ | b0 | z0 | s0 | l0 | d]; try (exfalso; exact (Ho d eq_refl));
    simpl; try reflexivity;
    match goal with |- context [if ?b then _ else _] => destruct b end;
    simpl; first [exact IH | reflexivity].
Qed.

Lemma analyze_npd_path_non_dict o (Ho : forall d, o <> PDict d) :
  analyze_npd_path (Response 200 (Some o)) =
  if forallb (contains_true o) required_fields then inr o
  else inr (default_verdict (exn_message TypeError)).
Proof.
  unfold analyze_npd_path, npd_try_body. simpl Z.eqb. cbv iota beta.
  rewrite (fill_required_not_dict o Ho).
  destruct (forallb (contains_true o) required_fields); reflexivity.
Qed.

(** X8: a status-200 reply that parses to JSON other than an object is
    returned unchanged exactly when each of the three required field names
    is [in] it (possible for a list of strings or a string), and is
    otherwise replaced by the fallback verdict of the [Exception] handler,
    since [in] or item assignment raises [TypeError] on it. *)
Theorem non_dict_reply (o : pyobj) (Ho : forall d, o <> PDict d) :
  (analyze_npd_path (Response 200 (Some o)) = inr o <->
   forall f, In f required_fields -> py_contains o f = inr true) /\
  (analyze_npd_path (Response 200 (Some o)) <> inr o ->
   analyze_npd_path (Response 200 (Some o)) =
   inr (default_verdict (exn_message TypeError))).
Proof.
  rewrite (analyze_npd_path_non_dict o Ho).
  destruct (forallb (contains_true o) required_fields) eqn:Hf.
  - split; [split; [intros _ | reflexivity] | intros H; contradiction].
    intros f Hin. rewrite forallb_forall in Hf. specialize (Hf f Hin).
    unfold contains_true in Hf. destruct (py_contains o f) as [| []]; congruence.
  - split; [split | reflexivity].
    + intros H. inversion H; subst. exfalso. exact (Ho _ eq_refl).
    + intros H. exfalso. apply Bool.not_true_iff_false in Hf. apply Hf.
      apply forallb_forall. intros f Hin. unfold contains_true. rewrite (H f Hin).
      reflexivity.
Qed.

Lemma non_dict_reply_witness :
  analyze_npd_path (Response 200 (Some (PList [PStr "is_bug"]))) =
  inr (default_verdict (exn_message TypeError)).
Proof.
  apply (proj2 (non_dict_reply (PList [PStr "is_bug"]) ltac:(intros d; discriminate))).
  vm_compute. discriminate.
Defined.

Lemma classic_pyobj_dict o : (exists d, o = PDict d) \/ (forall d, o <> PDict d).
Proof. destruct o; try (right; intros d'; discriminate). left; eauto. Qed.

Lemma analyze_npd_path_cases resp r :
  analyze_npd_path resp = inr r ->
  (exists m, r = default_verdict m) \/
  (exists o, resp = Response 200 (Some o) /\ (forall d, o <> PDict d) /\ r = o) \/
  (exists d, resp = Response 200 (Some (PDict d)) /\
             r = PDict (fold_left fill_missing required_fields d)).
Proof.
  destruct resp as [e | code parsed].
  - unfold analyze_npd_path; simpl. destruct e; simpl; intros H; inversion H; eauto.
  - destruct (Z.eqb_spec code 200) as [-> | Hc].
    + destruct parsed as [o |].
      * destruct (classic_pyobj_dict o) as [(d & ->) | Ho].
        -- intros H. rewrite analyze_npd_path_dict_reply in H. inversion H.
           right; right; eauto.
        -- rewrite (analyze_npd_path_non_dict o Ho).
           destruct (forallb (contains_true o) required_fields); intros H; inversion H;
             subst; [right; left; exists r; auto | left; eauto].
      * unfold analyze_npd_path; simpl. intros H; inversion H; eauto.
    + unfold analyze_npd_path, npd_try_body. apply Z.eqb_neq in Hc. rewrite Hc.
      intros H; inversion H; eauto.
Qed.

Definition get_or (d : list (string * pyobj)) (k : string) (default : pyobj) : pyobj :=
  match dict_get d k with Some v => v | None => default end.

(** X9: a finding comes only from a status-200 reply that parses to a JSON
    object whose [is_bug] is truthy; the finding carries the file, the
    function's name and code, the two events' variable and lines, and the
    reply's [severity] or, when the reply has none, ['Low'] (the fill loop
    runs first, so the analyzer's ['Medium'] default never applies), and
    the reply's [trigger_condition] or, when it has none, [no_trigger]. *)
Theorem finding_origin resp func file na aa b :
  candidate_outcome resp func file na aa = inr (Some b) ->
  exists d v, resp = Response 200 (Some (PDict d)) /\
    dict_get d "is_bug" = Some v /\ truthy v = true /\
    b = Bug file (name func) (variable na) (line na) (line aa)
            (get_or d "severity" (PStr "Low")) (get_or d "path_description" (PStr ""))
            (get_or d "trigger_condition" (PStr no_trigger)) (get_or d "reason" (PStr ""))
            (code func).
Proof.
  unfold candidate_outcome.
  destruct (analyze_npd_path resp) as [e | r] eqn:Ha; simpl; [discriminate |].
  destruct (analyze_npd_path_cases resp r Ha)
    as [(m & ->) | [(o & -> & Ho & ->) | (d & -> & ->)]].
  - simpl. discriminate.
  - destruct o; simpl; try discriminate. exfalso. exact (Ho _ eq_refl).
  - cbn [py_get bind]. unfold get_or. rewrite !fill_missing_get. cbn [existsb required_fields].
    destruct (dict_get d "is_bug") as [v |] eqn:Hv; simpl; [| discriminate].
    destruct (truthy v) eqn:Ht; simpl; [| discriminate].
    intros H. injection H as <-. exists d, v. repeat split; auto.
    destruct (dict_get d "severity"), (dict_get d "path_description"),
      (dict_get d "trigger_condition"), (dict_get d "reason"); reflexivity.
Qed.

(** X10: a status-200 reply that parses to a JSON list or string holding all
    three required field names is passed back unchanged, and the analyzer's
    [llm_result.get('is_bug')] then raises [AttributeError] (lists and
    strings have no [get]); any other non-object reply records nothing. *)
Theorem non_dict_reply_outcome (o : pyobj) (Ho : forall d, o <> PDict d)
    func file na aa :
  candidate_outcome (Response 200 (Some o)) func file na aa =
  if forallb (contains_true o) required_fields then inl AttributeError else inr None.
Proof.
  unfold candidate_outcome. rewrite (analyze_npd_path_non_dict o Ho).
  destruct (forallb (contains_true o) required_fields); simpl; [| reflexivity].
  destruct o; simpl; try reflexivity. exfalso. exact (Ho _ eq_refl).
Qed.

Lemma non_dict_reply_outcome_witness :
  candidate_outcome (Response 200 (Some (PList [PStr "has_dangerous_path";
                                                PStr "is_bug"; PStr "severity"])))
                    (ex_unit ex_scenario_c) "f.py" (Event "x" 1) (Event "x" 2) = inl AttributeError.
Proof.
  rewrite (non_dict_reply_outcome
             (PList [PStr "has_dangerous_path"; PStr "is_bug"; PStr "severity"])
             ltac:(intros d; discriminate)).
  reflexivity.
Defined.

(** ** What a completed analysis of a file returns *)

Lemma candidate_outcome_fields resp func file na aa b :
  candidate_outcome resp func file na aa = inr (Some b) ->
  bug_file b = file /\ bug_function b = name func /\ bug_variable b = variable na /\
  bug_null_line b = line na /\ bug_use_line b = line aa /\ bug_code_snippet b = code func.
Proof.
  unfold candidate_outcome.
  destruct (analyze_npd_path resp) as [e | r]; simpl; [discriminate |].
  destruct (py_get r "is_bug" PNone) as [e | v]; simpl; [discriminate |].
  destruct (truthy v); [| discriminate].
  destruct (py_get r "severity" _); simpl; [discriminate |].
  destruct (py_get r "path_description" _); simpl; [discriminate |].
  destruct (py_get r "trigger_condition" _); simpl; [discriminate |].
  destruct (py_get r "reason" _); simpl; [discriminate |].
  intros H. injection H as <-. simpl. auto 6.
Qed.

(** A finding of unit [u] in [file]: built from one of [u]'s candidates. *)
Definition finding_of (file : string) (u : func_unit) (b : bug) : Prop :=
  exists na aa,
    In (na, aa) (match_events (find_null_assignments (fnode u))
                              (find_attribute_access (fnode u))) /\
    bug_file b = file /\ bug_function b = name u /\ bug_variable b = variable na /\
    bug_null_line b = line na /\ bug_use_line b = line aa /\ bug_code_snippet b = code u.

Section AnalysisFacts.
Variable ask : nat -> request -> api_response.

Lemma check_matches_bugs func file : forall ms calls bugs calls' bs,
  check_matches ask func file ms calls bugs = (calls', inr bs) ->
  exists new, bs = bugs ++ new /\ length new <= length ms /\
    forall b, In b new -> exists na aa, In (na, aa) ms /\
      bug_file b = file /\ bug_function b = name func /\ bug_variable b = variable na /\
      bug_null_line b = line na /\ bug_use_line b = line aa /\
      bug_code_snippet b = code func.
Proof.
  induction ms as [|[na aa] ms IH]; intros calls bugs calls' bs H; simpl in H.
  - inversion H; subst. exists []. rewrite app_nil_r. simpl. split; auto.
    split; [lia | intros b []].
  - destruct (candidate_outcome _ func file na aa) as [e | [b0|]] eqn:Hc.
    + discriminate.
    + apply IH in H as (new & -> & Hl & Hn). exists (b0 :: new).
      rewrite <- app_assoc. split; [reflexivity |]. split; [simpl; lia |].
      intros b [<- | Hb].
      * exists na, aa. split; [left; reflexivity |].
        exact (candidate_outcome_fields _ _ _ _ _ _ Hc).
      * destruct (Hn b Hb) as (na' & aa' & Hin & Hf).
        exists na', aa'. split; [right; exact Hin | exact Hf].
    + apply IH in H as (new & -> & Hl & Hn). exists new.
      split; [reflexivity |]. split; [simpl; lia |].
      intros b Hb. destruct (Hn b Hb) as (na' & aa' & Hin & Hf).
      exists na', aa'. split; [right; exact Hin | exact Hf].
Qed.

Lemma analyze_function_bugs u file calls calls' bs :
  analyze_function ask u file calls = (calls', inr bs) ->
  length bs <= length (unit_requests u) /\ forall b, In b bs -> finding_of file u b.
Proof.
  unfold analyze_function, unit_requests, finding_of. rewrite length_map.
  destruct (find_null_assignments (fnode u)) as [|na nas].
  - intros H; inversion H; subst. simpl. split; [lia | intros b []].
  - destruct (find_attribute_access (fnode u)) as [|aa aas].
    + intros H; inversion H; subst. simpl. split; [lia | intros b []].
    + destruct (match_events (na :: nas) (aa :: aas)) as [|m ms] eqn:Hm.
      * intros H; inversion H; subst. simpl. split; [lia | intros b []].
      * intros H. apply check_matches_bugs in H as (new & -> & Hl & Hn).
        split; [exact Hl |]. exact Hn.
Qed.

Lemma analyze_units_bugs file : forall us calls acc calls' bs,
  analyze_units ask us file calls acc = (calls', inr bs) ->
  exists new, bs = acc ++ new /\ length new <= length (flat_map unit_requests us) /\
    forall b, In b new -> exists u, In u us /\ finding_of file u b.
Proof.
  induction us as [|u us IH]; intros calls acc calls' bs H; simpl in H.
  - inversion H; subst. exists []. rewrite app_nil_r. simpl.
    split; [reflexivity |]. split; [lia | intros b []].
  - destruct (analyze_function ask u file calls) as [c1 [e | b1]] eqn:Ha;
      [discriminate |].
    apply analyze_function_bugs in Ha as [Hl1 Hf1].
    apply IH in H as (new & -> & Hl & Hn). exists (b1 ++ new).
    rewrite <- app_assoc. split; [reflexivity |].
    split; [simpl; rewrite length_app, length_app; lia |].
    intros b Hb. apply in_app_iff in Hb as [Hb | Hb].
    + exists u. split; [left; reflexivity | apply Hf1, Hb].
    + destruct (Hn b Hb) as (u' & Hu' & Hf). exists u'. split; [right; exact Hu' | exact Hf].
Qed.
End AnalysisFacts.

(** X11: when the analysis of a parsed file completes, the oracle has been
    called once per candidate of every extracted function, in order, and
    each finding belongs to one extracted function [u] of that file: it
    names the file and [u], carries [u]'s code, and comes from a source and
    a sink of [u] on the same variable with the source on an earlier line;
    there are at most as many findings as calls. *)
Theorem analyze_file_findings ask root source_code file calls calls' bs :
  analyze_file ask (Some (root, source_code)) file calls = (calls', inr bs) ->
  calls' = calls ++ flat_map unit_requests (extract_functions root source_code) /\
  length bs <= length calls' - length calls /\
  forall b, In b bs ->
    bug_null_line b < bug_use_line b /\
    exists u na aa, In u (extract_functions root source_code) /\
      In na (find_null_assignments (fnode u)) /\ In aa (find_attribute_access (fnode u)) /\
      variable na = variable aa /\
      bug_file b = file /\ bug_function b = name u /\ bug_variable b = variable na /\
      bug_null_line b = line na /\ bug_use_line b = line aa /\ bug_code_snippet b = code u.
Proof.
  unfold analyze_file. intros H.
  pose proof (analyze_units_calls ask file _ _ _ _ _ H) as Hc.
  apply analyze_units_bugs in H as (new & Hbs & Hl & Hn). simpl in Hbs. subst bs.
  split; [exact Hc |]. split; [rewrite Hc, length_app; lia |].
  intros b Hb. destruct (Hn b Hb) as (u & Hu & na & aa & Hm & Hfile & Hfun & Hvar & Hnl & Hul & Hcode).
  apply match_events_in in Hm as (Hna & Haa & Hp).
  unfold pairs_with in Hp. apply andb_true_iff in Hp as [Hv Hlt].
  apply String.eqb_eq in Hv. apply Nat.ltb_lt in Hlt.
  split; [rewrite Hnl, Hul; exact Hlt |].
  exists u, na, aa. repeat split; assumption.
Qed.

(** An oracle that confirms every candidate as a High-severity bug. *)
Definition ask_is_bug (i : nat) (req : request) : api_response :=
  Response 200 (Some (PDict [("is_bug", PBool true); ("severity", PStr "High")])).

Definition ex_module_source : string :=
  "def f():
    def g():
        x = None
        x.y".

Definition ex_module_run : list request * (exn + list bug) :=
  Eval vm_compute in
  analyze_file ask_is_bug (Some (ex_module, ex_module_source)) "m.py" [].

Definition ex_module_bugs : list bug :=
  match snd ex_module_run with inr bs => bs | inl _ => [] end.

Lemma analyze_file_findings_witness :
  analyze_file ask_is_bug (Some (ex_module, ex_module_source)) "m.py" [] =
    (fst ex_module_run, inr ex_module_bugs) /\
  length ex_module_bugs = 2 /\
  length ex_module_bugs <= length (fst ex_module_run) /\
  forall b, In b ex_module_bugs -> bug_null_line b < bug_use_line b /\ bug_file b = "m.py".
Proof.
  assert (H : analyze_file ask_is_bug (Some (ex_module, ex_module_source)) "m.py" [] =
              (fst ex_module_run, inr ex_module_bugs)) by (vm_compute; reflexivity).
  destruct (analyze_file_findings ask_is_bug ex_module ex_module_source "m.py" []
              (fst ex_module_run) ex_module_bugs H) as (_ & Hl & Hb).
  split; [exact H |]. split; [vm_compute; reflexivity |].
  split; [change (length (@nil request)) with 0 in Hl; rewrite Nat.sub_0_r in Hl; exact Hl |].
  intros b Hin. destruct (Hb b Hin) as (Hlt & u & na & aa & _ & _ & _ & _ & Hf & _).
  split; assumption.
Defined.

(** ** The loop over the files of a directory in [main] *)

(** The requests the analysis of one file sends when it completes. *)
Definition file_requests (parsed : option (node * string)) : list request :=
  match parsed with
  | Some (root, source_code) => flat_map unit_requests (extract_functions root source_code)
  | None => []
  end.

Definition file_finding (path : string) (parsed : option (node * string)) (b : bug) : Prop :=
  exists root source_code u, parsed = Some (root, source_code) /\
    In u (extract_functions root source_code) /\ finding_of path u b.

Lemma analyze_file_done ask parsed path calls calls' bs :
  analyze_file ask parsed path calls = (calls', inr bs) ->
  calls' = calls ++ file_requests parsed /\ forall b, In b bs -> file_finding path parsed b.
Proof.
  destruct parsed as [[root src] |]; simpl.
  - intros H. pose proof (analyze_units_calls ask path _ _ _ _ _ H) as Hc.
    apply analyze_units_bugs in H as (new & Hbs & _ & Hn). simpl in Hbs. subst bs.
    split; [exact Hc |]. intros b Hb. destruct (Hn b Hb) as (u & Hu & Hf).
    exists root, src, u. auto.
  - intros H; inversion H; subst. rewrite app_nil_r. split; [reflexivity | intros b []].
Qed.

(** X12: when the directory loop completes, the oracle has been called for
    the candidates of the files in the order the files were listed (a file
    that failed to parse adds no call), and every finding collected belongs
    to a file that parsed: it names that file's path and comes from one of
    its extracted functions. *)
Theorem analyze_files_findings ask : forall files calls bugs calls' bs,
  analyze_files ask files calls bugs = (calls', inr bs) ->
  calls' = calls ++ flat_map (fun fp => file_requests (snd fp)) files /\
  exists new, bs = bugs ++ new /\
    forall b, In b new -> exists path parsed, In (path, parsed) files /\
      bug_file b = path /\ file_finding path parsed b.
Proof.
  induction files as [|[path parsed] fs IH]; intros calls bugs calls' bs H; simpl in H.
  - inversion H; subst. simpl. rewrite app_nil_r. split; [reflexivity |].
    exists []. rewrite app_nil_r. split; [reflexivity | intros b []].
  - destruct (analyze_file ask parsed path calls) as [c1 [e | b1]] eqn:Ha; [discriminate |].
    apply analyze_file_done in Ha as [Hc1 Hf1].
    apply IH in H as [Hc (new & -> & Hn)]. split.
    + rewrite Hc, Hc1, <- app_assoc. reflexivity.
    + exists (b1 ++ new). rewrite app_assoc. split; [reflexivity |].
      intros b Hb. apply in_app_iff in Hb as [Hb | Hb].
      * exists path, parsed. split; [left; reflexivity |].
        pose proof (Hf1 b Hb) as Hf. split; [| exact Hf].
        destruct Hf as (r & s & u & _ & _ & na & aa & _ & Hfile & _). exact Hfile.
      * destruct (Hn b Hb) as (p & pr & Hin & Hrest).
        exists p, pr. split; [right; exact Hin | exact Hrest].
Qed.

Lemma analyze_files_findings_witness :
  analyze_files ask_is_bug [("m.py", Some (ex_module, ex_module_source)); ("bad.py", None)]
    [] [] = (fst ex_module_run, inr ex_module_bugs) /\
  fst ex_module_run = flat_map (fun fp => file_requests (snd fp))
    [("m.py", Some (ex_module, ex_module_source)); ("bad.py", None)].
Proof.
  assert (H : analyze_files ask_is_bug
                [("m.py", Some (ex_module, ex_module_source)); ("bad.py", None)] [] [] =
              (fst ex_module_run, inr ex_module_bugs)) by (vm_compute; reflexivity).
  split; [exact H |].
  exact (proj1 (analyze_files_findings ask_is_bug _ [] [] _ _ H)).
Defined.

Definition ex_reply : api_response :=
  ask_is_bug 0 (request_of (ex_unit ex_scenario_c) (Event "x" 1) (Event "x" 2)).

Definition ex_finding : bug :=
  Eval vm_compute in
  match candidate_outcome ex_reply (ex_unit ex_scenario_c) "f.py" (Event "x" 1) (Event "x" 2)
  with inr (Some b) => b | _ => Bug "" "" "" 0 0 PNone PNone PNone PNone "" end.

Lemma finding_origin_witness :
  candidate_outcome ex_reply (ex_unit ex_scenario_c) "f.py" (Event "x" 1) (Event "x" 2) =
    inr (Some ex_finding) /\
  exists d, ex_reply = Response 200 (Some (PDict d)) /\
            bug_severity ex_finding = get_or d "severity" (PStr "Low") /\
            bug_trigger_condition ex_finding = PStr no_trigger.
Proof.
  assert (H : candidate_outcome ex_reply (ex_unit ex_scenario_c) "f.py"
                (Event "x" 1) (Event "x" 2) = inr (Some ex_finding))
    by (vm_compute; reflexivity).
  split; [exact H |].
  destruct (finding_origin _ _ _ _ _ _ H) as (d & v & Hr & _ & _ & Hb).
  exists d. split; [exact Hr |]. rewrite Hb. simpl. split; [reflexivity |].
  unfold ex_reply, ask_is_bug in Hr. injection Hr as <-. reflexivity.
Defined.

(** ** [ReportGenerator._generate_summary] *)
















(** ** The reply-text cleanup *)

Local Open Scope string_scope.











